(** * The TUI coder worker ([aider/tui/worker.py])

    A shallow embedding of [CoderWorker]: the worker that runs a [Coder]
    session on a background thread with its own asyncio event loop, swaps
    the session when it raises [SwitchCoder], and reports to the TUI through
    an output queue.

    Python objects are referred to by handles ([loc]); the object store is
    explicit, so that "the same object" means "the same handle".  Code the
    worker calls but does not define ([Coder.run], [Coder.create], the
    asyncio loop, the thread) is an environment whose answers are
    arguments of the model. *)

From Stdlib Require Import ZArith QArith Lqa.
From stdpp Require Import base option list strings gmap functions pretty.

Local Open Scope string_scope.
Local Open Scope list_scope.

(** ** Python values and dictionaries *)

(** Object identity: a handle into the object store. *)
Definition loc := nat.

#[warnings="-register-all"]
Inductive value :=
| VNone
| VBool (b : bool)
| VInt (n : Z)
| VStr (s : string)
| VList (xs : list value)
| VRef (l : loc).

(** Python truthiness, as used by [x or 'code']. *)
Definition truthy (v : value) : bool :=
  match v with
  | VNone => false
  | VBool b => b
  | VInt n => negb (n =? 0)%Z
  | VStr s => negb (String.eqb s EmptyString)
  | VList xs => match xs with [] => false | _ => true end
  | VRef _ => true
  end.

(** [a or b] *)
Definition py_or (a b : value) : value := if truthy a then a else b.

(** A [dict] with string keys: keyword arguments and queue messages. *)
Abbreviation dict := (gmap string value).

(** [d.update(other)]: every item of [other] is stored into [d]. *)
Definition dict_update (d other : dict) : dict :=
  map_fold (fun k v acc => <[k := v]> acc) d other.

(** ** Exceptions *)

(** The part of Python's exception hierarchy the worker's handlers see.
    [asyncio.CancelledError] derives from [BaseException] and not from
    [Exception]; [SwitchCoder] and [RuntimeError] derive from [Exception].
    Every constructor carries [str(e)]. *)
Inductive exc :=
| CancelledError (msg : string)
| SwitchCoder (kwargs : dict) (msg : string)
| RuntimeError (msg : string)
| ExceptionSubclass (cls : string) (msg : string)
| BaseExceptionSubclass (cls : string) (msg : string).

(** [str(e)] *)
Definition exc_str (e : exc) : string :=
  match e with
  | CancelledError m | SwitchCoder _ m | RuntimeError m
  | ExceptionSubclass _ m | BaseExceptionSubclass _ m => m
  end.

(** [isinstance(e, Exception)] *)
Definition is_Exception (e : exc) : bool :=
  match e with
  | CancelledError _ | BaseExceptionSubclass _ _ => false
  | SwitchCoder _ _ | RuntimeError _ | ExceptionSubclass _ _ => true
  end.

Definition is_CancelledError (e : exc) : bool :=
  match e with CancelledError _ => true | _ => false end.

Definition is_RuntimeError (e : exc) : bool :=
  match e with RuntimeError _ => true | _ => false end.

Definition is_SwitchCoder (e : exc) : bool :=
  match e with SwitchCoder _ _ => true | _ => false end.

Inductive result (A : Type) :=
| Ok (a : A)
| Raise (e : exc).
Arguments Ok {A} a.
Arguments Raise {A} e.

(** ** Sessions *)

(** Modelled from the spec: the Session interface.  [aider.coders.Coder] is
    imported by the worker and is not part of the sources; the worker reads
    [io], [args], [mcp_servers], [mcp_tools] unconditionally, and
    [edit_format], [input_running], [output_running] through
    [getattr]/[hasattr], so the latter three may be absent. *)
Record coder_obj := {
  io : value;
  args : value;
  mcp_servers : value;
  mcp_tools : value;
  edit_format : option value;
  input_running : option value;
  output_running : option value
}.

Definition set_mcp_servers (v : value) (c : coder_obj) : coder_obj :=
  {| io := io c; args := args c; mcp_servers := v; mcp_tools := mcp_tools c;
     edit_format := edit_format c; input_running := input_running c;
     output_running := output_running c |}.

Definition set_mcp_tools (v : value) (c : coder_obj) : coder_obj :=
  {| io := io c; args := args c; mcp_servers := mcp_servers c; mcp_tools := v;
     edit_format := edit_format c; input_running := input_running c;
     output_running := output_running c |}.

Definition set_input_running (v : value) (c : coder_obj) : coder_obj :=
  {| io := io c; args := args c; mcp_servers := mcp_servers c;
     mcp_tools := mcp_tools c; edit_format := edit_format c;
     input_running := Some v; output_running := output_running c |}.

Definition set_output_running (v : value) (c : coder_obj) : coder_obj :=
  {| io := io c; args := args c; mcp_servers := mcp_servers c;
     mcp_tools := mcp_tools c; edit_format := edit_format c;
     input_running := input_running c; output_running := Some v |}.

(** The object store: every handle denotes a session object. *)
Abbreviation store := (loc -> coder_obj).

(** ** Construction parameters of a swap (worker.py, lines 97-109) *)

(** [dict(io=self.coder.io, from_coder=self.coder)] *)
Definition base_params (self_coder : loc) (c : coder_obj) : dict :=
  <["from_coder" := VRef self_coder]> {["io" := io c]}.

Definition swap_kwargs (self_coder : loc) (c : coder_obj) (switch_kwargs : dict) : dict :=
  let kwargs := base_params self_coder c in
  let kwargs := dict_update kwargs switch_kwargs in
  let kwargs :=
    if decide (is_Some (kwargs !! "show_announcements"))
    then delete "show_announcements" kwargs
    else kwargs in
  let kwargs := <["num_cache_warming_pings" := VInt 0]> kwargs in
  let kwargs := <["args" := args c]> kwargs in
  let kwargs := <["summarize_from_coder" := VBool false]> kwargs in
  let kwargs := <["mcp_servers" := VList []]> kwargs in
  kwargs.

(** ** The worker and the world around it *)

(** What the worker does to its environment, in program order.  The two
    [await]s of [_async_run] are the only suspension points of the
    coroutine. *)
Inductive event :=
| EvRun (c : loc)                          (* await self.coder.run() *)
| EvCreate (kwargs : dict)                 (* await Coder.create(kwargs...) *)
| EvSetCoder (c : loc)                     (* self.coder = ... *)
| EvSetAttr (c : loc) (attr : string) (v : value)
| EvPut (msg : dict)                       (* self.output_queue.put(msg) *)
| EvThreadStart (t : nat)                  (* self.thread.start() *)
| EvCallSoonStop                           (* loop.call_soon_threadsafe(loop.stop) *)
| EvJoin (t : nat) (timeout : Q)           (* self.thread.join(timeout=...) *)
| EvCancel (task : nat)                    (* task.cancel() *)
| EvDrain (tasks : list nat)               (* loop.run_until_complete(gather(...)) *)
| EvClose.                                 (* loop.close() *)

Definition is_await (ev : event) : bool :=
  match ev with EvRun _ | EvCreate _ => true | _ => false end.

(** The fields of a [CoderWorker] ([coder], [running], [thread], [loop]),
    the contents of its output queue in [put] order, and the rest of the
    world: the object store, the number of threads created so far, the time
    the caller has spent blocked, and the event log. *)
Record state := {
  coder : loc;
  running : bool;
  thread : option nat;
  loop : option nat;
  output_queue : list dict;
  objects : store;
  threads_created : nat;
  blocked : Q;
  trace : list event
}.

Definition with_coder (c : loc) (s : state) : state :=
  {| coder := c; running := running s; thread := thread s; loop := loop s;
     output_queue := output_queue s; objects := objects s;
     threads_created := threads_created s; blocked := blocked s;
     trace := trace s |}.

Definition with_running (b : bool) (s : state) : state :=
  {| coder := coder s; running := b; thread := thread s; loop := loop s;
     output_queue := output_queue s; objects := objects s;
     threads_created := threads_created s; blocked := blocked s;
     trace := trace s |}.

Definition with_thread (t : option nat) (s : state) : state :=
  {| coder := coder s; running := running s; thread := t; loop := loop s;
     output_queue := output_queue s; objects := objects s;
     threads_created := threads_created s; blocked := blocked s;
     trace := trace s |}.

Definition with_loop (l : option nat) (s : state) : state :=
  {| coder := coder s; running := running s; thread := thread s; loop := l;
     output_queue := output_queue s; objects := objects s;
     threads_created := threads_created s; blocked := blocked s;
     trace := trace s |}.

Definition with_output_queue (q : list dict) (s : state) : state :=
  {| coder := coder s; running := running s; thread := thread s; loop := loop s;
     output_queue := q; objects := objects s;
     threads_created := threads_created s; blocked := blocked s;
     trace := trace s |}.

Definition with_objects (h : store) (s : state) : state :=
  {| coder := coder s; running := running s; thread := thread s; loop := loop s;
     output_queue := output_queue s; objects := h;
     threads_created := threads_created s; blocked := blocked s;
     trace := trace s |}.

Definition with_threads_created (n : nat) (s : state) : state :=
  {| coder := coder s; running := running s; thread := thread s; loop := loop s;
     output_queue := output_queue s; objects := objects s;
     threads_created := n; blocked := blocked s;
     trace := trace s |}.

Definition with_blocked (d : Q) (s : state) : state :=
  {| coder := coder s; running := running s; thread := thread s; loop := loop s;
     output_queue := output_queue s; objects := objects s;
     threads_created := threads_created s; blocked := d;
     trace := trace s |}.

Definition log (ev : event) (s : state) : state :=
  {| coder := coder s; running := running s; thread := thread s; loop := loop s;
     output_queue := output_queue s; objects := objects s;
     threads_created := threads_created s; blocked := blocked s;
     trace := trace s ++ [ev] |}.

(** ** A state-and-exception monad for the method bodies *)

Definition M (A : Type) : Type := state -> result A * state.

#[global] Instance M_ret : MRet M := fun A a s => (Ok a, s).
#[global] Instance M_bind : MBind M := fun A B f m s =>
  match m s with
  | (Ok a, s') => f a s'
  | (Raise e, s') => (Raise e, s')
  end.

Definition gets {A} (f : state -> A) : M A := fun s => (Ok (f s), s).
Definition modify (f : state -> state) : M unit := fun s => (Ok tt, f s).
Definition raise {A} (e : exc) : M A := fun s => (Raise e, s).

(** [try: body / except <classes> as e: handler e]; an exception the clause
    does not match propagates. *)
Definition try_except {A} (body : M A) (catches : exc -> bool) (handler : exc -> M A) : M A :=
  fun s =>
    match body s with
    | (Ok a, s') => (Ok a, s')
    | (Raise e, s') => if catches e then handler e s' else (Raise e, s')
    end.

(** [try: body / finally: final] *)
Definition try_finally {A} (body : M A) (final : M unit) : M A :=
  fun s =>
    match body s with
    | (r, s') =>
        match final s' with
        | (Ok _, s'') => (r, s'')
        | (Raise e, s'') => (Raise e, s'')
        end
    end.

(** A call into the environment: the call is logged, its outcome is the
    environment's. *)
Definition call {A} (ev : event) (r : result A) : M A :=
  fun s => (r, log ev s).

(** [for x in xs: body x] *)
Fixpoint for_each {A} (xs : list A) (body : A -> M unit) : M unit :=
  match xs with
  | [] => mret tt
  | x :: rest => body x ;; for_each rest body
  end.

(** [self.output_queue.put(msg)] on an unbounded [queue.Queue]. *)
Definition put (msg : dict) : M unit :=
  modify (fun s => log (EvPut msg) (with_output_queue (output_queue s ++ [msg]) s)).

(** [obj.attr = v] on a session object; [upd] is the field the attribute
    names. *)
Definition setattr (c : loc) (attr : string) (v : value)
    (upd : value -> coder_obj -> coder_obj) : M unit :=
  modify (fun s =>
    log (EvSetAttr c attr v) (with_objects (<[c := upd v (objects s c)]> (objects s)) s)).

(** ** The swap (worker.py, lines 94-126) *)

Inductive flow := Continue | Break.

Definition mode_change_msg (mode : value) : dict :=
  <["mode" := mode]> {["type" := VStr "mode_change"]}.

Definition error_msg (text : string) : dict :=
  <["message" := VStr text]> {["type" := VStr "error"]}.

(** [await Coder.create(kwargs...)]: the environment builds the new session
    and may change any object while the coroutine is suspended. *)
Definition await_create (create : dict -> store -> result loc * store) (kwargs : dict) : M loc :=
  fun s =>
    match create kwargs (objects s) with
    | (r, h) => (r, log (EvCreate kwargs) (with_objects h s))
    end.

(** The body of the inner [try] (lines 97-120). *)
Definition swap (create : dict -> store -> result loc * store) (switch_kwargs : dict) : M unit :=
  self_coder ← gets coder;
  c ← gets (fun s => objects s self_coder);
  let old_mcp_servers := mcp_servers c in
  let old_mcp_tools := mcp_tools c in
  let kwargs := swap_kwargs self_coder c switch_kwargs in
  new ← await_create create kwargs;
  modify (fun s => log (EvSetCoder new) (with_coder new s));;
  setattr new "mcp_servers" old_mcp_servers set_mcp_servers;;
  setattr new "mcp_tools" old_mcp_tools set_mcp_tools;;
  c' ← gets (fun s => objects s (coder s));
  let edit_format := py_or (default (VStr "code") (edit_format c')) (VStr "code") in
  put (mode_change_msg edit_format).

(** The [except SwitchCoder as switch:] clause: the swap under its own
    [try ... except Exception as e] whose handler reports and breaks. *)
Definition handle_switch (create : dict -> store -> result loc * store)
    (switch_kwargs : dict) : M flow :=
  try_except
    (swap create switch_kwargs;; mret Continue)
    is_Exception
    (fun e => put (error_msg ("Failed to switch mode: " +:+ exc_str e));; mret Break).

(** ** The worker loop (worker.py, lines 86-133) *)

(** [try: body / except C1: h1 / except C2: h2 ...]: the first clause whose
    class matches handles the exception; with no match it propagates. *)
Fixpoint dispatch {A} (clauses : list ((exc -> bool) * (exc -> M A))) (e : exc) : M A :=
  match clauses with
  | [] => raise e
  | (matches, handler) :: rest => if matches e then handler e else dispatch rest e
  end.

Definition try_excepts {A} (body : M A) (clauses : list ((exc -> bool) * (exc -> M A))) : M A :=
  fun s =>
    match body s with
    | (Ok a, s') => (Ok a, s')
    | (Raise e, s') => dispatch clauses e s'
    end.

(** Modelled from the spec: [switch.kwargs], the overrides a ControlSignal
    carries, a mapping from strings to values.  [SwitchCoder] is imported
    from [aider.commands], which is not part of the sources; the worker
    lists it before [Exception] among its handlers, as a class derived from
    [Exception]. *)
Definition switch_kwargs_of (e : exc) : dict :=
  match e with SwitchCoder kwargs _ => kwargs | _ => ∅ end.

(** What the environment does during one pass through the loop body: how
    the session's run step ends, how [Coder.create] answers should the
    worker call it, and whether [stop()] is called on the foreground thread
    before the loop condition is evaluated again. *)
Record iteration := {
  it_run : loc -> store -> result unit * store;
  it_create : dict -> store -> result loc * store;
  it_stop : bool
}.

(** [await self.coder.run()] *)
Definition await_run (run : loc -> store -> result unit * store) : M unit :=
  fun s =>
    match run (coder s) (objects s) with
    | (r, h) => (r, log (EvRun (coder s)) (with_objects h s))
    end.

(** One pass through the body of [while self.running:]. *)
Definition loop_body (it : iteration) : M flow :=
  try_excepts
    (await_run (it_run it);; mret Break)
    [ (is_CancelledError, fun _ => mret Break);
      (is_SwitchCoder, fun switch => handle_switch (it_create it) (switch_kwargs_of switch));
      (is_Exception, fun e => put (error_msg (exc_str e));; mret Break) ].

(** How the coroutine [_async_run] stands once the environment's answers
    are used up: it returned, an exception left it, or it is suspended in
    [await self.coder.run()]. *)
Inductive status :=
| Completed
| Escaped (e : exc)
| Suspended.

Fixpoint _async_run (script : list iteration) (s : state) : status * state :=
  if running s then
    match script with
    | [] => (Suspended, s)
    | it :: rest =>
        match loop_body it s with
        | (Ok Break, s') => (Completed, s')
        | (Ok Continue, s') =>
            _async_run rest (if it_stop it then with_running false s' else s')
        | (Raise e, s') => (Escaped e, s')
        end
    end
  else (Completed, s).

(** ** [start] (worker.py, lines 38-42) *)

Definition start : M unit :=
  modify (with_running true);;
  t ← gets threads_created;
  modify (fun s => with_thread (Some t) (with_threads_created (S t) s));;
  modify (log (EvThreadStart t)).

(** ** [stop] (worker.py, lines 135-154) *)

(** What the foreground thread observes during one call of [stop]. *)
Record stop_env := {
  loop_is_running : bool;             (* self.loop.is_running() *)
  loop_closed : bool;                 (* the loop is closed by the time of call_soon_threadsafe *)
  thread_is_alive : bool;             (* self.thread.is_alive() *)
  thread_exits_after : option Q       (* seconds until the worker thread ends, if it ever does *)
}.

(** [thread.join(timeout=...)] returns when the thread has ended or when
    the timeout has passed, whichever comes first. *)
Definition join (t : nat) (timeout : Q) (exits_after : option Q) : M unit :=
  let waited :=
    match exits_after with
    | Some d => if Qle_bool d timeout then d else timeout
    | None => timeout
    end in
  modify (fun s => log (EvJoin t timeout) (with_blocked (blocked s + waited)%Q s)).

(** [self.loop.call_soon_threadsafe(self.loop.stop)]: asyncio raises
    [RuntimeError] on a closed loop and schedules the callback otherwise. *)
Definition call_soon_threadsafe_stop (closed : bool) : M unit :=
  call EvCallSoonStop
    (if closed then Raise (RuntimeError "Event loop is closed") else Ok tt).

(** "Signal the coder to stop" (lines 139-143). *)
Definition signal_coder : M unit :=
  c ← gets coder;
  o ← gets (fun s => objects s c);
  (match input_running o with
   | Some _ => setattr c "input_running" (VBool false) set_input_running
   | None => mret tt
   end);;
  o ← gets (fun s => objects s c);
  match output_running o with
  | Some _ => setattr c "output_running" (VBool false) set_output_running
  | None => mret tt
  end.

(** Lines 145-150. *)
Definition request_loop_stop (env : stop_env) : M unit :=
  l ← gets loop;
  if bool_decide (is_Some l) && loop_is_running env
  then try_except (call_soon_threadsafe_stop (loop_closed env))
         is_RuntimeError (fun _ => mret tt)
  else mret tt.

(** "Wait for thread to finish" (lines 152-154). *)
Definition wait_for_thread (env : stop_env) : M unit :=
  th ← gets thread;
  match th with
  | Some t => if thread_is_alive env then join t 2 (thread_exits_after env) else mret tt
  | None => mret tt
  end.

Definition stop (env : stop_env) : M unit :=
  modify (with_running false);;
  signal_coder;;
  request_loop_stop env;;
  wait_for_thread env.

(** The call [worker.stop(a1, ..., an)]: [def stop(self)] binds no argument
    besides [self]. *)
Definition stop_call (args : list value) (env : stop_env) : M unit :=
  match args with
  | [] => stop env
  | _ =>
      raise (ExceptionSubclass "TypeError"
        ("CoderWorker.stop() takes 1 positional argument but "
           +:+ pretty (S (length args)) +:+ " were given"))
  end.

(** ** [_cleanup_loop] (worker.py, lines 59-84) *)

(** The answers of the event loop during one teardown.  [is_closed],
    [is_running], [all_tasks] and [task.cancel] do not raise in asyncio;
    draining and closing may. *)
Record loop_env := {
  is_closed : bool;                    (* self.loop.is_closed() *)
  all_tasks : list nat;                (* asyncio.all_tasks(self.loop) *)
  is_running : bool;                   (* self.loop.is_running() *)
  drain : list nat -> result unit;     (* run_until_complete(gather(..., return_exceptions=True)) *)
  close : result unit                  (* self.loop.close() *)
}.

Definition _cleanup_loop (env : loop_env) : M unit :=
  l ← gets loop;
  match l with
  | None => mret tt
  | Some _ =>
      try_except
        (if is_closed env then mret tt
         else
           let pending := all_tasks env in
           for_each pending (fun task => call (EvCancel task) (Ok tt));;
           (if is_running env then mret tt
            else
              match pending with
              | [] => mret tt
              | _ :: _ =>
                  try_except (call (EvDrain pending) (drain env pending))
                    is_RuntimeError (fun _ => mret tt)
              end);;
           call EvClose (close env))
        is_Exception
        (fun _ => mret tt)
  end.

(** ** [_run_thread] (worker.py, lines 44-57) *)

Record thread_env := {
  new_event_loop : nat;          (* the handle asyncio.new_event_loop() returns *)
  script : list iteration;       (* the answers [_async_run] receives *)
  loop_stopped : bool;           (* loop.stop() ran while [_async_run] was suspended *)
  teardown : loop_env
}.

(** [self.loop.run_until_complete(self._async_run())]: [None] while the
    coroutine is suspended and the loop still runs. *)
Definition run_until_complete (env : thread_env) (s : state) : option (result unit * state) :=
  match _async_run (script env) s with
  | (Completed, s') => Some (Ok tt, s')
  | (Escaped e, s') => Some (Raise e, s')
  | (Suspended, s') =>
      if loop_stopped env
      then Some (Raise (RuntimeError "Event loop stopped before Future completed."), s')
      else None
  end.

Definition _run_thread (env : thread_env) (s : state) : option (result unit * state) :=
  let s := with_loop (Some (new_event_loop env)) s in
  match run_until_complete env s with
  | None => None
  | Some (r, s') =>
      Some (try_finally
              (try_excepts (fun s0 => (r, s0))
                 [ (is_CancelledError, fun _ => mret tt);
                   (is_RuntimeError, fun _ => mret tt) ])
              (_cleanup_loop (teardown env)) s')
  end.

(** Unfolds the monad's plumbing. *)
Ltac run_monad :=
  cbv [mbind M_bind mret M_ret gets modify raise call put setattr
       await_create await_run try_except try_excepts dispatch].

(** ** The specification's vocabulary *)

(** The construction parameters as the specification words them: the base
    parameters merged with the overrides, the overrides winning, and then
    the three fixed policy overrides. *)
Definition claimed_kwargs (self_coder : loc) (c : coder_obj) (overrides : dict) : dict :=
  <["mcp_servers" := VList []]>
    (<["summarize_from_coder" := VBool false]>
       (<["num_cache_warming_pings" := VInt 0]>
          (overrides ∪ base_params self_coder c))).

(** The mode a session declares: its [edit_format], and ["code"] when the
    attribute is absent or falsy. *)
Definition declared_mode (c : coder_obj) : value :=
  match edit_format c with
  | Some v => if truthy v then v else VStr "code"
  | None => VStr "code"
  end.




(** What a call that only signals and waits leaves alone. *)
Definition kept (s s' : state) : Prop :=
  coder s' = coder s /\ running s' = running s /\ thread s' = thread s /\
  loop s' = loop s /\ output_queue s' = output_queue s /\
  threads_created s' = threads_created s.

Definition is_setattr (ev : event) : bool :=
  match ev with EvSetAttr _ _ _ => true | _ => false end.

(** Several events logged in a row. *)
Definition log_many (evs : list event) (s : state) : state :=
  fold_left (fun s ev => log ev s) evs s.



(** ** Sample data *)

Module Sample.

Definition blank : coder_obj :=
  {| io := VNone; args := VNone; mcp_servers := VNone; mcp_tools := VNone;
     edit_format := None; input_running := None; output_running := None |}.

(** A session in "code" mode whose MCP state lives at handles 102, 103. *)
Definition code_coder : coder_obj :=
  {| io := VRef 100; args := VRef 101;
     mcp_servers := VRef 102; mcp_tools := VRef 103;
     edit_format := Some (VStr "code");
     input_running := Some (VBool true); output_running := None |}.

Definition s0 : state :=
  {| coder := 1; running := true; thread := None; loop := None;
     output_queue := []; objects := <[1 := code_coder]> (fun _ => blank);
     threads_created := 0; blocked := 0; trace := [] |}.

(** A [Coder.create] that builds the new session at handle [new] from
    its keyword arguments, with MCP state of its own. *)
Definition create_at (new : loc) (kwargs : dict) (h : store) : result loc * store :=
  (Ok new,
   <[new := {| io := default VNone (kwargs !! "io");
               args := default VNone (kwargs !! "args");
               mcp_servers := default VNone (kwargs !! "mcp_servers");
               mcp_tools := VList [];
               edit_format := kwargs !! "edit_format";
               input_running := None; output_running := None |}]> h).

Definition create_fails (e : exc) (kwargs : dict) (h : store) : result loc * store :=
  (Raise e, h).

Definition raises (e : exc) (c : loc) (h : store) : result unit * store :=
  (Raise e, h).

Definition to_architect : dict :=
  <["show_announcements" := VBool true]> {["edit_format" := VStr "architect"]}.

Definition with_args : dict := <["args" := VStr "other"]> to_architect.

Definition switch_it (new : loc) (overrides : dict) : iteration :=
  {| it_run := raises (SwitchCoder overrides EmptyString); it_create := create_at new;
     it_stop := false |}.

(** The run step asks for a swap; the construction of the new session
    is cancelled while the worker awaits it. *)
Definition cancelled_in_create : iteration :=
  {| it_run := raises (SwitchCoder to_architect EmptyString);
     it_create := create_fails (CancelledError EmptyString); it_stop := false |}.

(** The run step asks for a swap; the construction fails. *)
Definition create_error : iteration :=
  {| it_run := raises (SwitchCoder to_architect EmptyString);
     it_create := create_fails (ExceptionSubclass "ValueError" "unknown edit format");
     it_stop := false |}.

(** The run step fails. *)
Definition run_error : iteration :=
  {| it_run := raises (ExceptionSubclass "ConnectionError" "model offline");
     it_create := create_at 9; it_stop := false |}.

Definition to_ask : dict := {["edit_format" := VStr "ask"]}.


(** The worker after a first [start()]. *)
Definition started : state := (start s0).2.

(** The worker thread once its loop exists. *)
Definition in_thread : state := with_loop (Some 0) started.

Definition never_exits : stop_env :=
  {| loop_is_running := true; loop_closed := false;
     thread_is_alive := true; thread_exits_after := None |}.

(** A teardown during which a cancelled task calls [sys.exit()] while it
    unwinds. *)
Definition exit_in_drain : loop_env :=
  {| is_closed := false; all_tasks := [0]; is_running := false;
     drain := fun _ => Raise (BaseExceptionSubclass "SystemExit" EmptyString);
     close := Ok tt |}.

End Sample.

(** * The prompt registry ([aider/prompts/utils/prompt_registry.py]) *)

Module PromptRegistry.

(** A loaded YAML value as [_merge_prompts] tells them apart: a mapping
    ([isinstance(v, dict)]) or anything else.  A mapping is a Python [dict]:
    its items in insertion order, no key twice. *)
#[warnings="-register-all"]
Inductive node :=
| Leaf (v : value)
| Mapping (items : list (string * node)).

Abbreviation pdict := (list (string * node)).

(** [d.get(key)], [None] when the key is missing. *)
Fixpoint get (key : string) (d : pdict) : option node :=
  match d with
  | [] => None
  | (k, v) :: rest => if String.eqb k key then Some v else get key rest
  end.

(** [key in d] *)
Definition contains (key : string) (d : pdict) : bool :=
  match get key d with Some _ => true | None => false end.

(** [d[key] = v]: an existing key keeps its place, a new key goes last. *)
Fixpoint set (key : string) (v : node) (d : pdict) : pdict :=
  match d with
  | [] => [(key, v)]
  | (k, v') :: rest =>
      if String.eqb k key then (k, v) :: rest else (k, v') :: set key v rest
  end.

(** The value [_merge_prompts] stores under a key (lines 55-58): the
    recursive merge when the key is present and both values are mappings,
    the override's value otherwise.  [existing] is [result.get(key)]. *)
Fixpoint merge_value (existing : option node) (v : node) {struct v} : node :=
  match existing, v with
  | Some (Mapping b), Mapping o =>
      Mapping
        ((fix loop (result override : pdict) {struct override} : pdict :=
            match override with
            | [] => result
            | (key, v') :: rest =>
                loop (set key (merge_value (get key result) v') result) rest
            end) b o)
  | _, _ => v
  end.

(** The loop of [_merge_prompts] (lines 54-58) over the items of
    [override] still to come, [result] being the dictionary built so far. *)
Fixpoint merge_into (result override : pdict) {struct override} : pdict :=
  match override with
  | [] => result
  | (key, v) :: rest =>
      merge_into (set key (merge_value (get key result) v) result) rest
  end.

(** [_merge_prompts(base, override)]: [result = base.copy()], the loop,
    [return result]. *)
Definition _merge_prompts (base override : pdict) : pdict :=
  merge_into base override.

(** What opening and parsing one file of the prompts directory gives:
    no such file, a YAML syntax error, another failure of [open], or the
    mapping the file holds (empty for an empty file, by [or {}]). *)
Inductive file :=
| Missing
| Invalid (err : string)
| Unreadable (e : exc)
| Content (d : pdict).

(** The files of the prompts directory by name, and how a path in it prints
    ([self._prompts_dir / name] inside an f-string). *)
Record disk := {
  files : string -> file;
  path_str : string -> string
}.

(** [_load_yaml_file] (lines 33-41). *)
Definition _load_yaml_file (fs : disk) (name : string) : result pdict :=
  match files fs name with
  | Content d => Ok d
  | Missing => Ok []
  | Invalid err =>
      Raise (ExceptionSubclass "ValueError"
               ("Error parsing YAML file " +:+ path_str fs name +:+ ": " +:+ err))
  | Unreadable e => Raise e
  end.

(** The registry: the cache of merged prompts by name and the cached base
    prompts ([None] until loaded). *)
Record registry := {
  _prompts_cache : gmap string pdict;
  _base_prompts : option pdict
}.

(** [_get_base_prompts] (lines 43-48). *)
Definition _get_base_prompts (fs : disk) (reg : registry) : result pdict * registry :=
  match _base_prompts reg with
  | Some b => (Ok b, reg)
  | None =>
      match _load_yaml_file fs "base.yml" with
      | Ok b => (Ok b, {| _prompts_cache := _prompts_cache reg; _base_prompts := Some b |})
      | Raise e => (Raise e, reg)
      end
  end.

(** [get_prompt] (lines 62-89). *)
Definition get_prompt (fs : disk) (prompt_name : string) (reg : registry)
    : result pdict * registry :=
  match _prompts_cache reg !! prompt_name with
  | Some cached => (Ok cached, reg)
  | None =>
      match _get_base_prompts fs reg with
      | (Raise e, reg1) => (Raise e, reg1)
      | (Ok base_prompts, reg1) =>
          match _load_yaml_file fs (prompt_name +:+ ".yml") with
          | Raise e => (Raise e, reg1)
          | Ok specific_prompts =>
              let merged_prompts := _merge_prompts base_prompts specific_prompts in
              (Ok merged_prompts,
               {| _prompts_cache := <[prompt_name := merged_prompts]> (_prompts_cache reg1);
                  _base_prompts := _base_prompts reg1 |})
          end
      end
  end.

(** [reload_prompts] (lines 91-94). *)
Definition reload_prompts (reg : registry) : registry :=
  {| _prompts_cache := ∅; _base_prompts := None |}.

(** Keys unique at every level: what every Python [dict] satisfies. *)
Fixpoint wf_node (n : node) : Prop :=
  match n with
  | Leaf _ => True
  | Mapping items =>
      NoDup (map fst items) /\
      (fix all (l : pdict) : Prop :=
         match l with
         | [] => True
         | (_, v) :: rest => wf_node v /\ all rest
         end) items
  end.

Definition wf (d : pdict) : Prop := wf_node (Mapping d).

Fixpoint size_node (n : node) : nat :=
  match n with
  | Leaf _ => 1
  | Mapping items =>
      S ((fix sum (l : pdict) : nat :=
            match l with
            | [] => 0
            | (_, v) :: rest => size_node v + sum rest
            end) items)
  end.

End PromptRegistry.

(** * The input widget ([aider/tui/widgets/input_area.py]) *)

Module InputArea.

(** What reading the history file gives when the widget first needs it:
    the stored strings, most recent first (prompt_toolkit's
    [load_history_strings]), an [OSError], or another exception. *)
Inductive load_outcome :=
| Loaded (newest_first : list string)
| LoadOSError
| LoadFails (e : exc).

(** What [FileHistory(...).append_string(text)] does. *)
Inductive append_outcome :=
| Appended
| AppendOSError
| AppendFails (e : exc).

(** The answers of the history file during one call. *)
Record env := {
  load : load_outcome;
  append : append_outcome
}.

(** The messages the widget posts. *)
Inductive message :=
| CompletionRequested (text : string)
| CompletionCycle
| CompletionAccept
| CompletionDismiss.

(** The widget: the attributes [__init__] sets (lines 40-48), the
    [value], [cursor_position] and [disabled] attributes of the Textual
    [Input] it extends, taken as plain attributes, and the messages posted
    so far, oldest first. *)
Record t := {
  history_file : option string;
  _history : option (list string);
  _history_index : Z;
  _saved_input : string;
  value : string;
  cursor_position : nat;
  completion_active : bool;
  disabled : bool;
  posted : list message
}.

(** [__init__] (lines 30-48), on an input that is empty and enabled. *)
Definition init (file : option string) : t :=
  {| history_file := file; _history := None; _history_index := -1;
     _saved_input := EmptyString; value := EmptyString; cursor_position := 0;
     completion_active := false; disabled := false; posted := [] |}.

Definition with_history (h : option (list string)) (w : t) : t :=
  {| history_file := history_file w; _history := h;
     _history_index := _history_index w; _saved_input := _saved_input w;
     value := value w; cursor_position := cursor_position w;
     completion_active := completion_active w; disabled := disabled w;
     posted := posted w |}.

Definition with_index (i : Z) (w : t) : t :=
  {| history_file := history_file w; _history := _history w;
     _history_index := i; _saved_input := _saved_input w;
     value := value w; cursor_position := cursor_position w;
     completion_active := completion_active w; disabled := disabled w;
     posted := posted w |}.

Definition with_saved_input (s : string) (w : t) : t :=
  {| history_file := history_file w; _history := _history w;
     _history_index := _history_index w; _saved_input := s;
     value := value w; cursor_position := cursor_position w;
     completion_active := completion_active w; disabled := disabled w;
     posted := posted w |}.

Definition with_value (s : string) (w : t) : t :=
  {| history_file := history_file w; _history := _history w;
     _history_index := _history_index w; _saved_input := _saved_input w;
     value := s; cursor_position := cursor_position w;
     completion_active := completion_active w; disabled := disabled w;
     posted := posted w |}.

Definition with_cursor_position (n : nat) (w : t) : t :=
  {| history_file := history_file w; _history := _history w;
     _history_index := _history_index w; _saved_input := _saved_input w;
     value := value w; cursor_position := n;
     completion_active := completion_active w; disabled := disabled w;
     posted := posted w |}.

(** [self.post_message(m)] *)
Definition post_message (m : message) (w : t) : t :=
  {| history_file := history_file w; _history := _history w;
     _history_index := _history_index w; _saved_input := _saved_input w;
     value := value w; cursor_position := cursor_position w;
     completion_active := completion_active w; disabled := disabled w;
     posted := posted w ++ [m] |}.

(** Truthiness of [self.history_file]: neither [None] nor empty. *)
Definition has_file (w : t) : bool :=
  match history_file w with
  | Some f => negb (String.eqb f EmptyString)
  | None => false
  end.

(** [l[i]] with Python's negative indices; [IndexError] out of range. *)
Definition py_index (l : list string) (i : Z) : result string :=
  let n := Z.of_nat (length l) in
  let j := (if i <? 0 then n + i else i)%Z in
  if ((0 <=? j) && (j <? n))%Z
  then Ok (nth (Z.to_nat j) l EmptyString)
  else Raise (ExceptionSubclass "IndexError" "list index out of range").

(** [_ensure_history_loaded] (lines 50-63). *)
Definition _ensure_history_loaded (l : load_outcome) (w : t) : result (list string) * t :=
  match _history w with
  | Some h => (Ok h, w)
  | None =>
      let w := with_history (Some []) w in
      if has_file w then
        match l with
        | Loaded newest_first =>
            (Ok (rev newest_first), with_history (Some (rev newest_first)) w)
        | LoadOSError => (Ok [], w)
        | LoadFails e => (Raise e, w)
        end
      else (Ok [], w)
  end.

Section Strip.

(** [str.isspace] on one character. *)
Variable isspace : Ascii.ascii -> bool.

Fixpoint lstrip (cs : list Ascii.ascii) : list Ascii.ascii :=
  match cs with
  | c :: rest => if isspace c then lstrip rest else cs
  | [] => []
  end.

(** [text.strip()] *)
Definition strip (text : string) : string :=
  String.string_of_list_ascii (rev (lstrip (rev (lstrip (String.list_ascii_of_string text))))).

(** The guard of [save_to_history] (line 82). *)
Definition too_short (text : string) : bool :=
  String.eqb text EmptyString
  || String.eqb (strip text) EmptyString
  || (String.length (strip text) <=? 1)%nat.

(** [save_to_history] (lines 75-102). *)
Definition save_to_history (e : env) (text : string) (w : t) : result unit * t :=
  if too_short text then (Ok tt, w)
  else
    match _ensure_history_loaded (load e) w with
    | (Raise x, w) => (Raise x, w)
    | (Ok history, w) =>
        if match last history with
           | Some newest => String.eqb newest text
           | None => false
           end
        then (Ok tt, w)
        else
          match (if has_file w then append e else Appended) with
          | AppendFails x => (Raise x, w)
          | Appended | AppendOSError =>
              (Ok tt,
               with_saved_input EmptyString
                 (with_index (-1) (with_history (Some (history ++ [text])) w)))
          end
    end.

End Strip.

(** [_history_prev] (lines 104-120). *)
Definition _history_prev (l : load_outcome) (w : t) : result unit * t :=
  match _ensure_history_loaded l w with
  | (Raise x, w) => (Raise x, w)
  | (Ok history, w) =>
      match history with
      | [] => (Ok tt, w)
      | _ :: _ =>
          let moved :=
            if (_history_index w =? -1)%Z
            then Some (with_index (Z.of_nat (length history) - 1)
                         (with_saved_input (value w) w))
            else if (0 <? _history_index w)%Z
            then Some (with_index (_history_index w - 1) w)
            else None in
          match moved with
          | None => (Ok tt, w)
          | Some w =>
              match py_index history (_history_index w) with
              | Raise x => (Raise x, w)
              | Ok entry =>
                  (Ok tt, with_cursor_position (String.length entry) (with_value entry w))
              end
          end
      end
  end.

(** [_history_next] (lines 122-136). *)
Definition _history_next (l : load_outcome) (w : t) : result unit * t :=
  if (_history_index w =? -1)%Z then (Ok tt, w)
  else
    match _ensure_history_loaded l w with
    | (Raise x, w) => (Raise x, w)
    | (Ok history, w) =>
        if (_history_index w <? Z.of_nat (length history) - 1)%Z
        then
          let w := with_index (_history_index w + 1) w in
          match py_index history (_history_index w) with
          | Raise x => (Raise x, w)
          | Ok entry =>
              (Ok tt, with_cursor_position (String.length entry) (with_value entry w))
          end
        else
          let w := with_value (_saved_input w) (with_index (-1) w) in
          (Ok tt, with_cursor_position (String.length (value w)) w)
    end.

(** [on_key] (lines 138-165).  The boolean tells whether the event was
    consumed ([event.stop()] and [event.prevent_default()]). *)
Definition on_key (l : load_outcome) (key : string) (w : t) : result bool * t :=
  if disabled w then (Ok false, w)
  else if String.eqb key "tab" then
    if completion_active w
    then (Ok true, post_message CompletionCycle w)
    else (Ok true, post_message (CompletionRequested (value w)) w)
  else if String.eqb key "escape" && completion_active w then
    (Ok true, post_message CompletionDismiss w)
  else if String.eqb key "up" then
    match _history_prev l w with
    | (Ok _, w) => (Ok true, w)
    | (Raise x, w) => (Raise x, w)
    end
  else if String.eqb key "down" then
    match _history_next l w with
    | (Ok _, w) => (Ok true, w)
    | (Raise x, w) => (Raise x, w)
    end
  else (Ok false, w).

(** The keys of a list pressed one after the other; a key whose handling
    raises ends the run. *)
Fixpoint press (l : load_outcome) (keys : list string) (w : t) : result unit * t :=
  match keys with
  | [] => (Ok tt, w)
  | key :: rest =>
      match on_key l key w with
      | (Ok _, w) => press l rest w
      | (Raise x, w) => (Raise x, w)
      end
  end.

(** The navigation index is [-1] (not navigating) or a position of the
    loaded history. *)
Definition nav_ok (w : t) : Prop :=
  match _history w with
  | None => _history_index w = (-1)%Z
  | Some h => (-1 <= _history_index w < Z.of_nat (length h))%Z
  end.

End InputArea.

(** The widget shows entry [i] of history [h], the typed input [v0] being
    saved. *)
Definition ia_at (h : list string) (v0 : string) (i : Z) (w : InputArea.t) : Prop :=
  InputArea._history w = Some h /\ InputArea._saved_input w = v0 /\
  InputArea._history_index w = i /\
  InputArea.value w = nth (Z.to_nat i) h EmptyString /\
  InputArea.disabled w = false.

(** * The status bar (src/aider/tui/widgets/status_bar.py)

    The bar is a record of its attributes, of what Textual keeps for it
    (CSS classes, the children mounted in its container, the messages
    posted, the calls of [focus]) and of the timers it started.  A timer is
    named by a number; which running timer fires, and when, is up to the
    environment ([timer_fires]). *)

Module StatusBar.

(** The [result] of a [ConfirmResponse]: [bool | str]. *)
Inductive response :=
| ResultBool (b : bool)
| ResultStr (s : string).

(** What is mounted in the [.status-content] container: a [Static], or
    the [Horizontal] of hints with its [Static] children, each with its
    text and its classes. *)
Inductive widget :=
| Static (content classes : string)
| Horizontal (classes : string) (children : list (string * string)).

Record t := {
  mode : string;
  _text : string;
  _severity : string;
  _show_all : bool;
  _timer : option nat;
  classes : gset string;
  can_focus : bool;
  children : list widget;
  posted : list response;
  focus_calls : nat;
  running : list nat;
  next_timer : nat
}.

(** [__init__] (lines 112-118), with the class keyword [can_focus=True]
    and the reactive's default. *)
Definition init : t :=
  {| mode := "hidden"; _text := EmptyString; _severity := "info";
     _show_all := false; _timer := None; classes := ∅; can_focus := true;
     children := []; posted := []; focus_calls := 0; running := [];
     next_timer := 0 |}.

Definition with_mode (m : string) (w : t) : t :=
  {| mode := m; _text := _text w; _severity := _severity w;
     _show_all := _show_all w; _timer := _timer w; classes := classes w;
     can_focus := can_focus w; children := children w; posted := posted w;
     focus_calls := focus_calls w; running := running w;
     next_timer := next_timer w |}.

Definition with_text (s : string) (w : t) : t :=
  {| mode := mode w; _text := s; _severity := _severity w;
     _show_all := _show_all w; _timer := _timer w; classes := classes w;
     can_focus := can_focus w; children := children w; posted := posted w;
     focus_calls := focus_calls w; running := running w;
     next_timer := next_timer w |}.

Definition with_severity (s : string) (w : t) : t :=
  {| mode := mode w; _text := _text w; _severity := s;
     _show_all := _show_all w; _timer := _timer w; classes := classes w;
     can_focus := can_focus w; children := children w; posted := posted w;
     focus_calls := focus_calls w; running := running w;
     next_timer := next_timer w |}.

Definition with_show_all (b : bool) (w : t) : t :=
  {| mode := mode w; _text := _text w; _severity := _severity w;
     _show_all := b; _timer := _timer w; classes := classes w;
     can_focus := can_focus w; children := children w; posted := posted w;
     focus_calls := focus_calls w; running := running w;
     next_timer := next_timer w |}.

Definition with_timer (tm : option nat) (w : t) : t :=
  {| mode := mode w; _text := _text w; _severity := _severity w;
     _show_all := _show_all w; _timer := tm; classes := classes w;
     can_focus := can_focus w; children := children w; posted := posted w;
     focus_calls := focus_calls w; running := running w;
     next_timer := next_timer w |}.

Definition with_classes (c : gset string) (w : t) : t :=
  {| mode := mode w; _text := _text w; _severity := _severity w;
     _show_all := _show_all w; _timer := _timer w; classes := c;
     can_focus := can_focus w; children := children w; posted := posted w;
     focus_calls := focus_calls w; running := running w;
     next_timer := next_timer w |}.

Definition with_can_focus (b : bool) (w : t) : t :=
  {| mode := mode w; _text := _text w; _severity := _severity w;
     _show_all := _show_all w; _timer := _timer w; classes := classes w;
     can_focus := b; children := children w; posted := posted w;
     focus_calls := focus_calls w; running := running w;
     next_timer := next_timer w |}.

Definition with_children (c : list widget) (w : t) : t :=
  {| mode := mode w; _text := _text w; _severity := _severity w;
     _show_all := _show_all w; _timer := _timer w; classes := classes w;
     can_focus := can_focus w; children := c; posted := posted w;
     focus_calls := focus_calls w; running := running w;
     next_timer := next_timer w |}.

Definition with_running (r : list nat) (w : t) : t :=
  {| mode := mode w; _text := _text w; _severity := _severity w;
     _show_all := _show_all w; _timer := _timer w; classes := classes w;
     can_focus := can_focus w; children := children w; posted := posted w;
     focus_calls := focus_calls w; running := r;
     next_timer := next_timer w |}.

(** [self.post_message(...)] *)
Definition post_message (r : response) (w : t) : t :=
  {| mode := mode w; _text := _text w; _severity := _severity w;
     _show_all := _show_all w; _timer := _timer w; classes := classes w;
     can_focus := can_focus w; children := children w;
     posted := posted w ++ [r];
     focus_calls := focus_calls w; running := running w;
     next_timer := next_timer w |}.

(** [self.focus()] *)
Definition focus (w : t) : t :=
  {| mode := mode w; _text := _text w; _severity := _severity w;
     _show_all := _show_all w; _timer := _timer w; classes := classes w;
     can_focus := can_focus w; children := children w; posted := posted w;
     focus_calls := S (focus_calls w); running := running w;
     next_timer := next_timer w |}.

(** [timer.stop()]: the timer will not fire any more. *)
Definition stop_timer (tm : nat) (w : t) : t :=
  with_running (filter (fun x => x <> tm) (running w)) w.

(** [self._timer = self.set_timer(timeout, self.hide)]: a new timer runs,
    and the bar holds it. *)
Definition set_timer (w : t) : t :=
  {| mode := mode w; _text := _text w; _severity := _severity w;
     _show_all := _show_all w; _timer := Some (next_timer w);
     classes := classes w; can_focus := can_focus w; children := children w;
     posted := posted w; focus_calls := focus_calls w;
     running := running w ++ [next_timer w];
     next_timer := S (next_timer w) |}.

(** [watch_mode] (lines 125-132). *)
Definition watch_mode (m : string) (w : t) : t :=
  let w := with_classes (classes w ∖ {["hidden"]}) w in
  if String.eqb m "hidden"
  then with_can_focus false (with_classes (classes w ∪ {["hidden"]}) w)
  else with_can_focus (String.eqb m "confirm") w.

(** [self.mode = m]: Textual stores the value and calls the watcher, and
    does neither when the value is the one the reactive holds already. *)
Definition set_mode (m : string) (w : t) : t :=
  if String.eqb (mode w) m then w else watch_mode m (with_mode m w).

(** [_rebuild_content] (lines 134-150). *)
Definition _rebuild_content (w : t) : t :=
  if String.eqb (mode w) "notification" then
    with_children [Static (_text w) ("notification-text " +:+ _severity w)] w
  else if String.eqb (mode w) "confirm" then
    with_children
      [Static (_text w) "confirm-question";
       Horizontal "confirm-hints"
         ([("\[y]es", "hint hint-yes"); ("\[n]o", "hint hint-no")]
          ++ (if _show_all w then [("\[a]ll", "hint hint-all")] else []))] w
  else with_children [] w.

(** The first lines of [show_notification], [show_confirm] and [hide]:
    [if self._timer: self._timer.stop(); self._timer = None]. *)
Definition cancel_timer (w : t) : t :=
  match _timer w with
  | Some tm => with_timer None (stop_timer tm w)
  | None => w
  end.

(** [if timeout:] for [timeout : float | None]. *)
Definition truthy (timeout : option Q) : bool :=
  match timeout with
  | Some q => negb (Qeq_bool q 0)
  | None => false
  end.

(** [show_notification] (lines 152-176). *)
Definition show_notification (text severity : string) (timeout : option Q) (w : t) : t :=
  let w := cancel_timer w in
  let w := with_text text w in
  let w := with_severity severity w in
  let w := set_mode "notification" w in
  let w := _rebuild_content w in
  if truthy timeout then set_timer w else w.

(** [show_confirm] (lines 178-194). *)
Definition show_confirm (question : string) (show_all : bool) (w : t) : t :=
  let w := cancel_timer w in
  let w := with_text question w in
  let w := with_show_all show_all w in
  let w := set_mode "confirm" w in
  let w := _rebuild_content w in
  focus w.

(** [hide] (lines 196-201). *)
Definition hide (w : t) : t :=
  set_mode "hidden" (cancel_timer w).

(** [str.lower] on the key names: the letters A-Z are mapped to a-z, and
    no other character is mapped to a letter of the keys compared below. *)
Definition lower_char (c : Ascii.ascii) : Ascii.ascii :=
  let n := Ascii.nat_of_ascii c in
  if (65 <=? n)%nat && (n <=? 90)%nat then Ascii.ascii_of_nat (n + 32) else c.

Fixpoint lower (s : string) : string :=
  match s with
  | EmptyString => EmptyString
  | String c rest => String (lower_char c) (lower rest)
  end.

(** [on_key] (lines 203-228); the boolean tells whether the event was
    stopped. *)
Definition on_key (key : string) (w : t) : bool * t :=
  if negb (String.eqb (mode w) "confirm") then (false, w)
  else
    let key := lower key in
    if String.eqb key "y" then
      (true, hide (post_message (ResultBool true) w))
    else if String.eqb key "n" then
      (true, hide (post_message (ResultBool false) w))
    else if String.eqb key "a" && _show_all w then
      (true, hide (post_message (ResultStr "all") w))
    else if String.eqb key "escape" then
      (true, hide (post_message (ResultBool false) w))
    else (false, w).

(** The keys of a list pressed one after the other. *)
Definition press (keys : list string) (w : t) : t :=
  fold_left (fun w key => (on_key key w).2) keys w.

(** A timer fires: if it still runs, it ends and calls [self.hide]. *)
Definition timer_fires (tm : nat) (w : t) : t :=
  if bool_decide (tm ∈ running w)
  then hide (with_running (filter (fun x => x <> tm) (running w)) w)
  else w.

(** The bar once mounted: Textual calls the watcher with the first value
    of the reactive. *)
Definition mounted : t := watch_mode (mode init) init.

(** The bar is consistent: the only timer that can still fire is the one
    the bar holds, which it holds only while a notification is shown; the
    [hidden] class is set exactly in the hidden mode and the bar can take
    the focus exactly in the confirm mode. *)
Definition consistent (w : t) : Prop :=
  match _timer w with
  | Some tm => running w = [tm] /\ (tm < next_timer w)%nat /\ mode w = "notification"
  | None => running w = []
  end /\
  ("hidden" ∈ classes w <-> mode w = "hidden") /\
  can_focus w = String.eqb (mode w) "confirm".

End StatusBar.

(** * Properties *)

(** ** Dictionaries *)

Lemma dict_update_union (d other : dict) : dict_update d other = other ∪ d.
Proof.
  unfold dict_update.
  apply (map_fold_weak_ind (fun r (m : dict) => r = m ∪ d)).
  - by rewrite (left_id_L ∅ (∪)).
  - intros k v m r _ ->. by rewrite insert_union_l.
Qed.

(** [d.update(other)] key by key: [other] wins where it has the key. *)
Lemma dict_update_lookup (d other : dict) (k : string) :
  dict_update d other !! k =
    match other !! k with Some v => Some v | None => d !! k end.
Proof.
  rewrite dict_update_union, lookup_union.
  destruct (other !! k), (d !! k); reflexivity.
Qed.

Lemma py_or_declared_mode (c : coder_obj) :
  py_or (default (VStr "code") (edit_format c)) (VStr "code") = declared_mode c.
Proof.
  unfold declared_mode, py_or.
  destruct (edit_format c) as [v|]; simpl; [|reflexivity].
  destruct (truthy v); reflexivity.
Qed.

(** [None] and the empty string are falsy; a non-empty string is not. *)
Example falsy_values :
  truthy VNone = false /\ truthy (VStr EmptyString) = false /\
  truthy (VStr "architect") = true.
Proof. repeat split. Qed.

(** ** The construction parameters *)

(** Lines 97-109 as one expression. *)
Lemma swap_kwargs_eq (self_coder : loc) (c : coder_obj) (overrides : dict) :
  swap_kwargs self_coder c overrides =
    <["mcp_servers" := VList []]>
      (<["summarize_from_coder" := VBool false]>
         (<["args" := args c]>
            (<["num_cache_warming_pings" := VInt 0]>
               (delete "show_announcements"
                  (overrides ∪ base_params self_coder c))))).
Proof.
  unfold swap_kwargs. rewrite dict_update_union.
  case_decide as Hin; [reflexivity|].
  rewrite delete_id; [reflexivity|].
  destruct ((overrides ∪ base_params self_coder c) !! "show_announcements") eqn:E;
    [exfalso; apply Hin; eauto | reflexivity].
Qed.

Lemma swap_kwargs_no_announcements (self_coder : loc) (c : coder_obj) (overrides : dict) :
  swap_kwargs self_coder c overrides !! "show_announcements" = None.
Proof.
  rewrite swap_kwargs_eq.
  rewrite !lookup_insert_ne by discriminate.
  apply lookup_delete_eq.
Qed.

(** ** The swap, outcome by outcome *)

(** [Coder.create] raised: the exception leaves [swap] right after the
    call, and nothing but the store (during the [await]) has changed. *)
Lemma swap_raises (create : dict -> store -> result loc * store) (overrides : dict) (s : state) (e : exc) (h : store) :
  create (swap_kwargs (coder s) (objects s (coder s)) overrides) (objects s) = (Raise e, h) ->
  swap create overrides s =
    (Raise e,
     log (EvCreate (swap_kwargs (coder s) (objects s (coder s)) overrides))
       (with_objects h s)).
Proof. intros H. unfold swap. run_monad. simpl. rewrite H. reflexivity. Qed.

(** [Coder.create] returned [new]: the swap runs to its end. *)
Lemma swap_returns (create : dict -> store -> result loc * store) (overrides : dict) (s : state) (new : loc) (h : store) :
  let old := objects s (coder s) in
  let kwargs := swap_kwargs (coder s) old overrides in
  create kwargs (objects s) = (Ok new, h) ->
  exists s',
    swap create overrides s = (Ok tt, s') /\
    coder s' = new /\
    running s' = running s /\
    objects s' new = set_mcp_tools (mcp_tools old) (set_mcp_servers (mcp_servers old) (h new)) /\
    (forall l, l <> new -> objects s' l = h l) /\
    output_queue s' = output_queue s ++ [mode_change_msg (declared_mode (objects s' new))] /\
    trace s' = trace s ++
      [ EvCreate kwargs; EvSetCoder new;
        EvSetAttr new "mcp_servers" (mcp_servers old);
        EvSetAttr new "mcp_tools" (mcp_tools old);
        EvPut (mode_change_msg (declared_mode (objects s' new))) ].
Proof.
  intros old kwargs H. subst old kwargs.
  unfold swap. run_monad. simpl. rewrite H. simpl.
  eexists. split; [reflexivity|]. simpl.
  rewrite !fn_lookup_insert, py_or_declared_mode.
  repeat split.
  - intros l Hl. by rewrite !fn_lookup_insert_ne.
  - by rewrite <- !app_assoc.
Qed.

(** [swap] ends in one of exactly two ways. *)
Lemma swap_cases (create : dict -> store -> result loc * store) (overrides : dict) (s : state) :
  (exists new h,
     create (swap_kwargs (coder s) (objects s (coder s)) overrides) (objects s) = (Ok new, h)) \/
  (exists e h,
     create (swap_kwargs (coder s) (objects s (coder s)) overrides) (objects s) = (Raise e, h)).
Proof.
  destruct (create _ (objects s)) as [[new|e] h]; [left|right]; eauto.
Qed.

(** The handler of [SwitchCoder], by the outcome of the swap. *)
Lemma handle_switch_unfold (create : dict -> store -> result loc * store)
    (overrides : dict) (s : state) :
  handle_switch create overrides s =
    match swap create overrides s with
    | (Ok _, s') => (Ok Continue, s')
    | (Raise e, s') =>
        if is_Exception e
        then let msg := error_msg ("Failed to switch mode: " +:+ exc_str e) in
             (Ok Break, log (EvPut msg) (with_output_queue (output_queue s' ++ [msg]) s'))
        else (Raise e, s')
    end.
Proof.
  unfold handle_switch. run_monad.
  destruct (swap create overrides s) as [[[]|e] s']; [reflexivity|].
  destruct (is_Exception e); reflexivity.
Qed.

(** A swap that continues the loop is one whose [Coder.create] returned. *)
Lemma handle_switch_continue (create : dict -> store -> result loc * store)
    (overrides : dict) (s s' : state) :
  handle_switch create overrides s = (Ok Continue, s') ->
  exists h,
    create (swap_kwargs (coder s) (objects s (coder s)) overrides) (objects s)
      = (Ok (coder s'), h) /\
    swap create overrides s = (Ok tt, s').
Proof.
  rewrite handle_switch_unfold.
  destruct (swap_cases create overrides s) as [(new & h & Hc)|(e & h & Hc)].
  - destruct (swap_returns _ _ _ _ _ Hc) as (s1 & Hs & Hnew & _).
    rewrite Hs. intros [= <-]. exists h. by rewrite Hnew.
  - rewrite (swap_raises _ _ _ _ _ Hc).
    destruct (is_Exception e); discriminate.
Qed.

(** One pass through the loop body, by the outcome of the run step. *)
Lemma loop_body_unfold (it : iteration) (s : state) :
  loop_body it s =
    match await_run (it_run it) s with
    | (Ok _, s1) => (Ok Break, s1)
    | (Raise e, s1) =>
        if is_CancelledError e then (Ok Break, s1)
        else if is_SwitchCoder e
        then handle_switch (it_create it) (switch_kwargs_of e) s1
        else if is_Exception e
        then let msg := error_msg (exc_str e) in
             (Ok Break, log (EvPut msg) (with_output_queue (output_queue s1 ++ [msg]) s1))
        else (Raise e, s1)
    end.
Proof.
  unfold loop_body.
  cbv [try_excepts dispatch mbind M_bind mret M_ret raise put modify].
  destruct (await_run (it_run it) s) as [[[]|e] s1]; [reflexivity|].
  destruct (is_CancelledError e); [reflexivity|].
  destruct (is_SwitchCoder e); [reflexivity|].
  destruct (is_Exception e); reflexivity.
Qed.

Lemma await_run_state (run : loc -> store -> result unit * store) (s : state) :
  (await_run run s).2 =
    log (EvRun (coder s)) (with_objects (run (coder s) (objects s)).2 s).
Proof. unfold await_run. destruct (run (coder s) (objects s)); reflexivity. Qed.

(** The loop body continues only through a successful swap, which appends
    one [mode_change] message naming the new session's declared mode. *)
Lemma loop_body_continue (it : iteration) (s s' : state) :
  loop_body it s = (Ok Continue, s') ->
  exists overrides msg s1,
    await_run (it_run it) s = (Raise (SwitchCoder overrides msg), s1) /\
    handle_switch (it_create it) overrides s1 = (Ok Continue, s') /\
    output_queue s' =
      output_queue s ++ [mode_change_msg (declared_mode (objects s' (coder s')))].
Proof.
  rewrite loop_body_unfold.
  pose proof (await_run_state (it_run it) s) as Hst.
  destruct (await_run (it_run it) s) as [[[]|e] s1]; [discriminate|].
  destruct e as [m|kw m|m|c m|c m]; simpl; try discriminate.
  intros H. exists kw, m, s1. split; [reflexivity|]. split; [exact H|].
  destruct (handle_switch_continue _ _ _ _ H) as (h & Hc & Hs).
  destruct (swap_returns _ _ _ _ _ Hc) as (s2 & Hs2 & Hnew & _ & _ & _ & Hq & _).
  rewrite Hs in Hs2. injection Hs2 as <-.
  rewrite Hq. simpl in Hst. subst s1. reflexivity.
Qed.

(** ** Claims about the swap *)

(** C1.  After every successful swap the [mcp_servers] and [mcp_tools]
    handles reachable from the current session are the very handles the
    outgoing session held when the swap began, and the transfer is
    synchronous: the call of [Coder.create] is followed at once by the
    assignment of the new session and of the two handles, with no
    suspension point of the coroutine in between. *)
Theorem swap_keeps_mcp_handles (create : dict -> store -> result loc * store)
    (overrides : dict) (s s' : state) :
  handle_switch create overrides s = (Ok Continue, s') ->
  let old := objects s (coder s) in
  mcp_servers (objects s' (coder s')) = mcp_servers old /\
  mcp_tools (objects s' (coder s')) = mcp_tools old /\
  exists kwargs transfer msg,
    trace s' = trace s ++ EvCreate kwargs :: transfer ++ [EvPut msg] /\
    transfer = [ EvSetCoder (coder s');
                 EvSetAttr (coder s') "mcp_servers" (mcp_servers old);
                 EvSetAttr (coder s') "mcp_tools" (mcp_tools old) ] /\
    forallb (fun ev => negb (is_await ev)) transfer = true.
Proof.
  intros H old.
  destruct (handle_switch_continue _ _ _ _ H) as (h & Hc & Hs).
  destruct (swap_returns _ _ _ _ _ Hc) as (s2 & Hs2 & Hnew & _ & Hobj & _ & _ & Htr).
  rewrite Hs in Hs2. injection Hs2 as <-.
  rewrite Hobj. repeat split.
  exists (swap_kwargs (coder s) old overrides),
    [ EvSetCoder (coder s');
      EvSetAttr (coder s') "mcp_servers" (mcp_servers old);
      EvSetAttr (coder s') "mcp_tools" (mcp_tools old) ],
    (mode_change_msg (declared_mode (objects s' (coder s')))).
  split; [exact Htr|]. split; reflexivity.
Qed.

Lemma swap_keeps_mcp_handles_witness :
  let s' := (handle_switch (Sample.create_at 2) Sample.to_architect Sample.s0).2 in
  mcp_servers (objects s' (coder s')) = VRef 102 /\
  mcp_tools (objects s' (coder s')) = VRef 103.
Proof.
  intros s'.
  destruct (swap_keeps_mcp_handles (Sample.create_at 2) Sample.to_architect
              Sample.s0 s') as (Hs & Ht & _).
  - vm_compute. reflexivity.
  - split; [exact Hs | exact Ht].
Defined.

(** C9.  Whenever the overrides of a [SwitchCoder] contain the key
    ["show_announcements"], the keyword arguments [Coder.create] is called
    with do not contain it; that call is the only suspension point of the
    handler. *)
Theorem show_announcements_never_passed (create : dict -> store -> result loc * store)
    (overrides : dict) (s : state) :
  is_Some (overrides !! "show_announcements") ->
  exists kwargs rest,
    trace (handle_switch create overrides s).2 = trace s ++ EvCreate kwargs :: rest /\
    kwargs !! "show_announcements" = None /\
    forallb (fun ev => negb (is_await ev)) rest = true.
Proof.
  intros _. rewrite handle_switch_unfold.
  exists (swap_kwargs (coder s) (objects s (coder s)) overrides).
  destruct (swap_cases create overrides s) as [(new & h & Hc)|(e & h & Hc)].
  - destruct (swap_returns _ _ _ _ _ Hc) as (s2 & -> & _ & _ & _ & _ & _ & Htr).
    eexists. split; [exact Htr|].
    split; [apply swap_kwargs_no_announcements | reflexivity].
  - rewrite (swap_raises _ _ _ _ _ Hc).
    destruct (is_Exception e); simpl.
    + exists [EvPut (error_msg ("Failed to switch mode: " +:+ exc_str e))].
      rewrite <- app_assoc.
      split; [reflexivity|]. split; [apply swap_kwargs_no_announcements | reflexivity].
    + exists []. split; [reflexivity|].
      split; [apply swap_kwargs_no_announcements | reflexivity].
Qed.

Lemma show_announcements_never_passed_witness :
  exists kwargs rest,
    trace (handle_switch (Sample.create_at 2) Sample.to_architect Sample.s0).2
      = trace Sample.s0 ++ EvCreate kwargs :: rest /\
    kwargs !! "show_announcements" = None /\
    forallb (fun ev => negb (is_await ev)) rest = true.
Proof.
  apply (show_announcements_never_passed (Sample.create_at 2) Sample.to_architect Sample.s0).
  vm_compute. eauto.
Defined.

(** C10.  After every successful swap the message appended to the output
    queue has type ["mode_change"], and its ["mode"] is the new session's
    [edit_format] when that attribute is present and truthy, and the string
    ["code"] when it is absent or falsy. *)
Theorem mode_change_carries_edit_format (create : dict -> store -> result loc * store)
    (overrides : dict) (s s' : state) :
  handle_switch create overrides s = (Ok Continue, s') ->
  let new := objects s' (coder s') in
  exists msg,
    output_queue s' = output_queue s ++ [msg] /\
    msg !! "type" = Some (VStr "mode_change") /\
    (forall v, edit_format new = Some v -> truthy v = true -> msg !! "mode" = Some v) /\
    (forall v, edit_format new = Some v -> truthy v = false ->
       msg !! "mode" = Some (VStr "code")) /\
    (edit_format new = None -> msg !! "mode" = Some (VStr "code")).
Proof.
  intros H new.
  destruct (handle_switch_continue _ _ _ _ H) as (h & Hc & Hs).
  destruct (swap_returns _ _ _ _ _ Hc) as (s2 & Hs2 & Hnew & _ & _ & _ & Hq & _).
  rewrite Hs in Hs2. injection Hs2 as <-.
  exists (mode_change_msg (declared_mode new)).
  split; [exact Hq|].
  unfold mode_change_msg, declared_mode.
  split; [by rewrite lookup_insert_ne, lookup_singleton_eq|].
  rewrite lookup_insert_eq.
  repeat split.
  - by intros v -> ->.
  - by intros v -> ->.
  - by intros ->.
Qed.

Lemma mode_change_carries_edit_format_witness :
  let s' := (handle_switch (Sample.create_at 2) Sample.to_architect Sample.s0).2 in
  exists msg,
    output_queue s' = [msg] /\ msg !! "mode" = Some (VStr "architect").
Proof.
  intros s'.
  destruct (mode_change_carries_edit_format (Sample.create_at 2) Sample.to_architect
              Sample.s0 s') as (msg & Hq & _ & Hm & _).
  - vm_compute. reflexivity.
  - exists msg. split; [exact Hq|].
    apply Hm; vm_compute; reflexivity.
Defined.

(** C8, as the specification words it, fails: with overrides that carry
    ["show_announcements"] and ["args"], the parameters [Coder.create]
    receives are not the base parameters merged with the overrides and
    topped with the three policy overrides; the code also drops
    ["show_announcements"] and replaces ["args"] by the current session's. *)
Lemma claimed_kwargs_differ :
  swap_kwargs 1 Sample.code_coder Sample.with_args
    <> claimed_kwargs 1 Sample.code_coder Sample.with_args /\
  swap_kwargs 1 Sample.code_coder Sample.with_args !! "show_announcements" = None /\
  claimed_kwargs 1 Sample.code_coder Sample.with_args !! "show_announcements"
    = Some (VBool true) /\
  swap_kwargs 1 Sample.code_coder Sample.with_args !! "args" = Some (VRef 101) /\
  claimed_kwargs 1 Sample.code_coder Sample.with_args !! "args" = Some (VStr "other").
Proof.
  split; [|repeat split; vm_compute; reflexivity].
  intros Heq. apply (f_equal (fun m : dict => m !! "args")) in Heq.
  vm_compute in Heq. discriminate Heq.
Qed.

(** C8, amended.  On a [SwitchCoder] carrying overrides [O], the keyword
    arguments [Coder.create] is called with are the base parameters ([io]
    and [from_coder] of the current session) merged with [O], [O] winning
    on every key collision, from which ["show_announcements"] is removed
    and on which the fixed overrides are then applied: no cache-warming
    pings, [args] of the current session, no summarization, and an empty
    list for [mcp_servers].  A key of [O] that none of these touches
    reaches [Coder.create] with the value [O] gives it. *)
Theorem effective_construction_parameters (create : dict -> store -> result loc * store)
    (overrides : dict) (s : state) :
  let c := objects s (coder s) in
  let kwargs : dict :=
    <["mcp_servers" := VList []]>
      (<["summarize_from_coder" := VBool false]>
         (<["args" := args c]>
            (<["num_cache_warming_pings" := VInt 0]>
               (delete "show_announcements"
                  (overrides ∪ base_params (coder s) c))))) in
  (exists rest,
     trace (handle_switch create overrides s).2 = trace s ++ EvCreate kwargs :: rest) /\
  (forall k v,
     overrides !! k = Some v ->
     k ∉ ["show_announcements"; "num_cache_warming_pings"; "args";
          "summarize_from_coder"; "mcp_servers"] ->
     kwargs !! k = Some v).
Proof.
  intros c kwargs. split.
  - subst kwargs c. rewrite <- swap_kwargs_eq, handle_switch_unfold.
    destruct (swap_cases create overrides s) as [(new & h & Hc)|(e & h & Hc)].
    + destruct (swap_returns _ _ _ _ _ Hc) as (s2 & -> & _ & _ & _ & _ & _ & Htr).
      eexists. exact Htr.
    + rewrite (swap_raises _ _ _ _ _ Hc).
      destruct (is_Exception e); simpl.
      * eexists. rewrite <- app_assoc. reflexivity.
      * exists []. reflexivity.
  - intros k v Hk Hnot. subst kwargs.
    rewrite !not_elem_of_cons in Hnot.
    destruct Hnot as (H1 & H2 & H3 & H4 & H5 & _).
    rewrite !lookup_insert_ne by congruence.
    rewrite lookup_delete_ne by congruence.
    by apply lookup_union_Some_l.
Qed.

Lemma effective_construction_parameters_witness :
  exists kwargs rest,
    trace (handle_switch (Sample.create_at 2) Sample.to_architect Sample.s0).2
      = trace Sample.s0 ++ EvCreate kwargs :: rest /\
    kwargs !! "edit_format" = Some (VStr "architect").
Proof.
  destruct (effective_construction_parameters (Sample.create_at 2) Sample.to_architect
              Sample.s0) as ((rest & Htr) & Hk).
  eexists _, rest. split; [exact Htr|].
  apply Hk.
  - vm_compute. reflexivity.
  - apply (bool_decide_unpack _). vm_compute. exact I.
Defined.

(** ** Claims about the loop *)

Lemma await_run_inv (run : loc -> store -> result unit * store) (s s1 : state)
    (r : result unit) :
  await_run run s = (r, s1) ->
  exists h, run (coder s) (objects s) = (r, h) /\
            s1 = log (EvRun (coder s)) (with_objects h s).
Proof.
  unfold await_run. destruct (run (coder s) (objects s)) as [r' h].
  intros [= <- <-]. eauto.
Qed.

Lemma swap_raise_inv (create : dict -> store -> result loc * store)
    (overrides : dict) (s s2 : state) (e : exc) :
  swap create overrides s = (Raise e, s2) ->
  exists h,
    create (swap_kwargs (coder s) (objects s (coder s)) overrides) (objects s) = (Raise e, h) /\
    s2 = log (EvCreate (swap_kwargs (coder s) (objects s (coder s)) overrides))
           (with_objects h s).
Proof.
  destruct (swap_cases create overrides s) as [(new & h & Hc)|(e' & h & Hc)].
  - destruct (swap_returns _ _ _ _ _ Hc) as (s' & -> & _). discriminate.
  - rewrite (swap_raises _ _ _ _ _ Hc). intros [= <- <-]. eauto.
Qed.

(** C3, as stated, fails: when the construction of the new session is
    cancelled, the [CancelledError] is not an [Exception]; it leaves the
    loop and no message is pushed. *)
Lemma cancelled_swap_is_silent :
  (_async_run [Sample.cancelled_in_create] Sample.s0).1 = Escaped (CancelledError EmptyString) /\
  output_queue (_async_run [Sample.cancelled_in_create] Sample.s0).2 = [].
Proof. split; vm_compute; reflexivity. Qed.

(** C3, amended.  If the swap protocol raises an exception derived from
    [Exception], the swap is aborted: exactly one error message, which
    reads "Failed to switch mode: " followed by the exception's text, is
    pushed, the loop ends whatever the environment would answer next, the
    previous session is not run again and stays in [self.coder].  An
    exception that is not derived from [Exception] (a cancellation) leaves
    the loop instead, and no message is pushed. *)
Theorem failed_swap_ends_loop (it : iteration) (rest : list iteration)
    (s s1 s2 : state) (overrides : dict) (m : string) (e : exc) :
  running s = true ->
  await_run (it_run it) s = (Raise (SwitchCoder overrides m), s1) ->
  swap (it_create it) overrides s1 = (Raise e, s2) ->
  let report := error_msg ("Failed to switch mode: " +:+ exc_str e) in
  exists s' kwargs,
    _async_run (it :: rest) s
      = (if is_Exception e then Completed else Escaped e, s') /\
    output_queue s' = output_queue s ++ (if is_Exception e then [report] else []) /\
    coder s' = coder s /\
    trace s' = trace s ++ EvRun (coder s) :: EvCreate kwargs ::
                 (if is_Exception e then [EvPut report] else []).
Proof.
  intros Hrun Hawait Hswap report.
  simpl. rewrite Hrun, loop_body_unfold, Hawait. simpl.
  rewrite handle_switch_unfold, Hswap.
  destruct (await_run_inv _ _ _ _ Hawait) as (h0 & _ & ->).
  destruct (swap_raise_inv _ _ _ _ _ Hswap) as (h & _ & ->).
  destruct (is_Exception e); simpl; eexists _, _.
  - split; [reflexivity|]. simpl. rewrite <- !app_assoc. by repeat split.
  - split; [reflexivity|]. simpl. rewrite <- !app_assoc, app_nil_r. by repeat split.
Qed.

Lemma failed_swap_ends_loop_witness :
  exists s',
    _async_run [Sample.create_error; Sample.switch_it 2 Sample.to_architect] Sample.s0
      = (Completed, s') /\
    output_queue s' = [error_msg "Failed to switch mode: unknown edit format"].
Proof.
  destruct (failed_swap_ends_loop Sample.create_error
              [Sample.switch_it 2 Sample.to_architect] Sample.s0
              (await_run (it_run Sample.create_error) Sample.s0).2
              (swap (it_create Sample.create_error) Sample.to_architect
                 (await_run (it_run Sample.create_error) Sample.s0).2).2
              Sample.to_architect EmptyString (ExceptionSubclass "ValueError" "unknown edit format"))
    as (s' & kwargs & Hr & Hq & _).
  - reflexivity.
  - vm_compute. reflexivity.
  - vm_compute. reflexivity.
  - exists s'. split; [exact Hr | exact Hq].
Defined.

(** C4.  If a run step of the current session fails with an error (an
    exception derived from [Exception]) that is neither a [SwitchCoder] nor
    a cancellation, exactly one error message, carrying the text of the
    failure, is pushed, and the loop ends whatever the environment would
    answer next: the session is run once and not again. *)
Theorem run_error_is_fail_stop (it : iteration) (rest : list iteration)
    (s s1 : state) (e : exc) :
  running s = true ->
  await_run (it_run it) s = (Raise e, s1) ->
  is_Exception e = true ->
  is_SwitchCoder e = false ->
  is_CancelledError e = false ->
  exists s',
    _async_run (it :: rest) s = (Completed, s') /\
    output_queue s' = output_queue s ++ [error_msg (exc_str e)] /\
    error_msg (exc_str e) !! "message" = Some (VStr (exc_str e)) /\
    coder s' = coder s /\
    trace s' = trace s ++ [EvRun (coder s); EvPut (error_msg (exc_str e))].
Proof.
  intros Hrun Hawait Hexc Hsw Hcan.
  simpl. rewrite Hrun, loop_body_unfold, Hawait, Hcan, Hsw, Hexc.
  destruct (await_run_inv _ _ _ _ Hawait) as (h0 & _ & ->).
  eexists. split; [reflexivity|]. simpl.
  rewrite <- !app_assoc. repeat split.
Qed.

Lemma run_error_is_fail_stop_witness :
  exists s',
    _async_run [Sample.run_error; Sample.switch_it 2 Sample.to_architect] Sample.s0
      = (Completed, s') /\
    output_queue s' = [error_msg "model offline"].
Proof.
  destruct (run_error_is_fail_stop Sample.run_error
              [Sample.switch_it 2 Sample.to_architect] Sample.s0
              (await_run (it_run Sample.run_error) Sample.s0).2
              (ExceptionSubclass "ConnectionError" "model offline"))
    as (s' & Hr & Hq & _); try reflexivity.
  exists s'. split; [exact Hr | exact Hq].
Defined.



(** ** [start] and [stop] *)

(** C7, as stated, fails: a second [start()] changes the supervisor and
    starts a second worker thread. *)
Lemma second_start_spawns_again :
  (start Sample.started).2 <> Sample.started /\
  thread Sample.started = Some 0 /\
  thread (start Sample.started).2 = Some 1 /\
  trace (start Sample.started).2 = [EvThreadStart 0; EvThreadStart 1].
Proof.
  split; [|repeat split].
  intros Heq. apply (f_equal threads_created) in Heq. discriminate Heq.
Qed.

(** C7, amended.  [start()] has no guard: every call, whether or not a
    worker thread is alive, sets the running flag, creates a new thread,
    stores it in [self.thread] and starts it, so the supervisor state
    changes; the call does not wait for anything and leaves the session,
    the loop and the output queue alone. *)
Theorem start_always_spawns (s : state) :
  exists s',
    start s = (Ok tt, s') /\
    running s' = true /\
    thread s' = Some (threads_created s) /\
    threads_created s' = S (threads_created s) /\
    trace s' = trace s ++ [EvThreadStart (threads_created s)] /\
    s' <> s /\
    blocked s' = blocked s /\
    coder s' = coder s /\ loop s' = loop s /\ output_queue s' = output_queue s.
Proof.
  eexists. split; [reflexivity|]. simpl. repeat split.
  intros Heq. apply (f_equal threads_created) in Heq. simpl in Heq. lia.
Qed.

Lemma start_always_spawns_witness :
  exists s', start Sample.started = (Ok tt, s') /\ thread s' = Some 1.
Proof.
  destruct (start_always_spawns Sample.started) as (s' & Hs & _ & Ht & _).
  exists s'. split; [exact Hs | exact Ht].
Defined.

Lemma join_wait_bound (exits_after : option Q) :
  (match exits_after with
   | Some d => if Qle_bool d 2 then d else 2
   | None => 2
   end <= 2)%Q.
Proof.
  destruct exits_after as [d|]; [|apply Qle_refl].
  destruct (Qle_bool d 2) eqn:E; [by apply Qle_bool_iff | apply Qle_refl].
Qed.

Lemma signal_coder_ok (s : state) :
  exists s' evs,
    signal_coder s = (Ok tt, s') /\ kept s s' /\ blocked s' = blocked s /\
    trace s' = trace s ++ evs /\ forallb is_setattr evs = true.
Proof.
  unfold signal_coder. run_monad. simpl.
  destruct (input_running (objects s (coder s))) as [v|] eqn:Ei; simpl.
  - rewrite fn_lookup_insert. simpl.
    destruct (output_running (objects s (coder s))); simpl;
      eexists _, _; (split; [reflexivity|]); simpl;
      (split; [by repeat split|]); (split; [reflexivity|]);
      rewrite <- ?app_assoc; (split; [reflexivity|]); reflexivity.
  - destruct (output_running (objects s (coder s))); simpl.
    + eexists _, _. split; [reflexivity|]. simpl.
      split; [by repeat split|]. split; [reflexivity|].
      split; reflexivity.
    + exists s, []. rewrite app_nil_r. by repeat split.
Qed.

Lemma request_loop_stop_ok (env : stop_env) (s : state) :
  request_loop_stop env s =
    (Ok tt,
     if bool_decide (is_Some (loop s)) && loop_is_running env
     then log EvCallSoonStop s else s).
Proof.
  unfold request_loop_stop, call_soon_threadsafe_stop. run_monad. simpl.
  destruct (bool_decide (is_Some (loop s)) && loop_is_running env); [|reflexivity].
  destruct (loop_closed env); reflexivity.
Qed.

Lemma wait_for_thread_ok (env : stop_env) (s : state) :
  exists s',
    wait_for_thread env s = (Ok tt, s') /\ kept s s' /\
    (blocked s' <= blocked s + 2)%Q /\
    trace s' = trace s ++
      match thread s with
      | Some t => if thread_is_alive env then [EvJoin t 2] else []
      | None => []
      end.
Proof.
  pose proof (join_wait_bound (thread_exits_after env)) as Hw.
  unfold wait_for_thread, join. run_monad. simpl.
  destruct (thread s) as [t|]; [destruct (thread_is_alive env)|];
    eexists; (split; [reflexivity|]); simpl; rewrite ?app_nil_r;
    (split; [by repeat split|]); (split; [|reflexivity]); lra.
Qed.

(** C2, as stated, fails: [stop] takes no timeout, so the call
    [stop(1)] raises [TypeError]; and a plain [stop()] on a worker whose
    thread never ends blocks for the fixed two seconds, more than the one
    second such a caller would have asked for. *)
Lemma stop_takes_no_timeout :
  (stop_call [VInt 1] Sample.never_exits Sample.started).1
    = Raise (ExceptionSubclass "TypeError"
               "CoderWorker.stop() takes 1 positional argument but 2 were given") /\
  (stop_call [] Sample.never_exits Sample.started).1 = Ok tt /\
  blocked (stop_call [] Sample.never_exits Sample.started).2 = 2%Q /\
  ~ (blocked (stop_call [] Sample.never_exits Sample.started).2 <= 1)%Q.
Proof.
  assert (Hb : blocked (stop_call [] Sample.never_exits Sample.started).2 = 2%Q)
    by (vm_compute; reflexivity).
  split; [vm_compute; reflexivity|].
  split; [vm_compute; reflexivity|].
  split; [exact Hb|].
  rewrite Hb. intros H. vm_compute in H. apply H. reflexivity.
Qed.

(** What one call of [stop] does, in full. *)
Lemma stop_outcome (env0 : stop_env) (s0 : state) :
  exists s1 evs,
    stop env0 s0 = (Ok tt, s1) /\ running s1 = false /\
    (blocked s1 <= blocked s0 + 2)%Q /\
    coder s1 = coder s0 /\ thread s1 = thread s0 /\ loop s1 = loop s0 /\
    output_queue s1 = output_queue s0 /\
    exists evs1, forallb is_setattr evs1 = true /\
      evs = evs1
        ++ (if bool_decide (is_Some (loop s0)) && loop_is_running env0
            then [EvCallSoonStop] else [])
        ++ match thread s0 with
           | Some t => if thread_is_alive env0 then [EvJoin t 2] else []
           | None => []
           end /\
      trace s1 = trace s0 ++ evs.
Proof.
    destruct (signal_coder_ok (with_running false s0))
      as (s1 & evs1 & Hs1 & (Hc1 & Hr1 & Ht1 & Hl1 & Hq1 & _) & Hb1 & Htr1 & Hev1).
    pose proof (request_loop_stop_ok env0 s1) as Hs2.
    set (s2 := if bool_decide (is_Some (loop s1)) && loop_is_running env0
               then log EvCallSoonStop s1 else s1) in Hs2.
    destruct (wait_for_thread_ok env0 s2)
      as (s3 & Hs3 & (Hc3 & Hr3 & Ht3 & Hl3 & Hq3 & _) & Hb3 & Htr3).
    assert (Hk2 : coder s2 = coder s1 /\ running s2 = running s1 /\
                  thread s2 = thread s1 /\ loop s2 = loop s1 /\
                  output_queue s2 = output_queue s1 /\ blocked s2 = blocked s1 /\
                  trace s2 = trace s1 ++
                    (if bool_decide (is_Some (loop s1)) && loop_is_running env0
                     then [EvCallSoonStop] else [])).
    { subst s2. destruct (bool_decide (is_Some (loop s1)) && loop_is_running env0);
        simpl; rewrite ?app_nil_r; by repeat split. }
    destruct Hk2 as (Hc2 & Hr2 & Ht2 & Hl2 & Hq2 & Hb2 & Htr2).
    exists s3. eexists.
    split.
    { unfold stop. cbv [mbind M_bind modify]. rewrite Hs1, Hs2. exact Hs3. }
    simpl in *.
    split; [congruence|]. split; [rewrite Hb2, Hb1 in Hb3; exact Hb3|].
    split; [congruence|]. split; [congruence|]. split; [congruence|].
    split; [congruence|].
    exists evs1. split; [exact Hev1|]. split; [reflexivity|].
    rewrite Htr3, Htr2, Htr1, Ht2, Ht1, Hl1, <- !app_assoc. reflexivity.
Qed.

(** C2, amended.  [stop()] takes no timeout; the bound of its join is a
    fixed two seconds.  Every call returns normally: it clears the running
    flag, clears [input_running] and [output_running] on the session where
    present, asks the loop to stop exactly when a loop exists and is
    running (a [RuntimeError] of that request is swallowed), joins the
    worker thread with timeout 2 exactly when a thread exists and is alive,
    and has then been blocked for at most two seconds, whether or not the
    thread has ended; the thread handle is kept, nothing kills the thread.
    Calling it again returns normally as well. *)
Theorem stop_returns_within_two_seconds (env : stop_env) (s : state) :
  exists s' evs,
    stop env s = (Ok tt, s') /\
    running s' = false /\
    (blocked s' <= blocked s + 2)%Q /\
    coder s' = coder s /\ thread s' = thread s /\ loop s' = loop s /\
    output_queue s' = output_queue s /\
    trace s' = trace s ++ evs /\
    (EvCallSoonStop ∈ evs <-> is_Some (loop s) /\ loop_is_running env = true) /\
    (forall t q, EvJoin t q ∈ evs <->
                 thread s = Some t /\ thread_is_alive env = true /\ q = 2%Q) /\
    (forall env2, exists s'', stop env2 s' = (Ok tt, s'') /\ running s'' = false).
Proof.
  destruct (stop_outcome env s) as (s' & evs & Hs & Hr & Hb & Hc & Ht & Hl & Hq & evs1 & Hev1 & -> & Htr).
  exists s'. eexists. split; [exact Hs|].
  do 6 (split; [assumption|]). split; [exact Htr|].
  assert (Hno : forall ev, ev ∈ evs1 -> is_setattr ev = true).
  { intros ev Hin. rewrite forallb_forall in Hev1. apply Hev1.
    by apply list_elem_of_In. }
  split; [|split].
  - rewrite !elem_of_app. split.
    + intros [Hin|[Hin|Hin]].
      * apply Hno in Hin. discriminate.
      * destruct (bool_decide (is_Some (loop s))) eqn:E1,
                 (loop_is_running env) eqn:E2; simpl in Hin;
          try (by apply elem_of_nil in Hin).
        split; [by apply bool_decide_eq_true in E1 | reflexivity].
      * destruct (thread s) as [t|]; [destruct (thread_is_alive env)|];
          try (by apply elem_of_nil in Hin).
        apply list_elem_of_singleton in Hin. discriminate.
    + intros [H1 H2]. right. left.
      rewrite (bool_decide_eq_true_2 _ H1), H2. simpl. apply list_elem_of_singleton.
      reflexivity.
  - intros t q. rewrite !elem_of_app. split.
    + intros [Hin|[Hin|Hin]].
      * apply Hno in Hin. discriminate.
      * destruct (bool_decide (is_Some (loop s)) && loop_is_running env);
          [apply list_elem_of_singleton in Hin; discriminate
          | by apply elem_of_nil in Hin].
      * destruct (thread s) as [t0|]; [destruct (thread_is_alive env)|];
          try (by apply elem_of_nil in Hin).
        apply list_elem_of_singleton in Hin. by injection Hin as -> ->.
    + intros (H1 & H2 & ->). right. right. rewrite H1, H2.
      apply list_elem_of_singleton. reflexivity.
  - intros env2. destruct (stop_outcome env2 s') as (s'' & _ & Hs2 & Hr2 & _).
    exists s''. by split.
Qed.

Lemma stop_returns_within_two_seconds_witness :
  exists s',
    stop Sample.never_exits Sample.in_thread = (Ok tt, s') /\
    (blocked s' <= 2)%Q /\
    EvCallSoonStop ∈ trace s' /\ EvJoin 0 2 ∈ trace s'.
Proof.
  destruct (stop_returns_within_two_seconds Sample.never_exits Sample.in_thread)
    as (s' & evs & Hs & _ & Hb & _ & _ & _ & _ & Htr & Hc & Hj & _).
  exists s'. split; [exact Hs|]. split; [|split].
  - eapply Qle_trans; [exact Hb|]. vm_compute. discriminate.
  - rewrite Htr. apply elem_of_app. right. apply Hc. split; [by eexists | reflexivity].
  - rewrite Htr. apply elem_of_app. right. apply Hj. by repeat split.
Defined.

(** ** Teardown *)

Lemma log_many_trace (evs : list event) (s : state) :
  trace (log_many evs s) = trace s ++ evs.
Proof.
  revert s. induction evs as [|ev evs IH]; intros s; simpl.
  - by rewrite app_nil_r.
  - unfold log_many in IH. rewrite IH. simpl. by rewrite <- app_assoc.
Qed.

Lemma for_each_cancel (tasks : list nat) (s : state) :
  for_each tasks (fun task => call (EvCancel task) (Ok tt)) s
    = (Ok tt, log_many (map EvCancel tasks) s).
Proof.
  revert s. induction tasks as [|t tasks IH]; intros s; [reflexivity|].
  cbn [for_each]. cbv [mbind M_bind call]. by rewrite IH.
Qed.


Lemma cleanup_unfold (env : loop_env) (s : state) :
  _cleanup_loop env s =
    match loop s with
    | None => (Ok tt, s)
    | Some _ =>
        if is_closed env then (Ok tt, s)
        else
          let pending := all_tasks env in
          let s1 := log_many (map EvCancel pending) s in
          let drained :=
            if is_running env then (Ok tt, s1)
            else match pending with
                 | [] => (Ok tt, s1)
                 | _ :: _ =>
                     match drain env pending with
                     | Ok _ => (Ok tt, log (EvDrain pending) s1)
                     | Raise e =>
                         (if is_RuntimeError e then Ok tt else Raise e,
                          log (EvDrain pending) s1)
                     end
                 end in
          let closed :=
            match drained with
            | (Ok _, s2) => (close env, log EvClose s2)
            | (Raise e, s2) => (Raise e, s2)
            end in
          match closed with
          | (Ok _, s3) => (Ok tt, s3)
          | (Raise e, s3) => (if is_Exception e then Ok tt else Raise e, s3)
          end
    end.
Proof.
  unfold _cleanup_loop. cbv [mbind M_bind mret M_ret gets try_except call].
  destruct (loop s); [|reflexivity].
  destruct (is_closed env); [reflexivity|].
  rewrite for_each_cancel.
  destruct (is_running env).
  - destruct (close env) as [[]|e]; [reflexivity|]. by destruct (is_Exception e).
  - destruct (all_tasks env) as [|t ts].
    + destruct (close env) as [[]|e]; [reflexivity|]. by destruct (is_Exception e).
    + destruct (drain env (t :: ts)) as [[]|e].
      * destruct (close env) as [[]|e]; [reflexivity|]. by destruct (is_Exception e).
      * destruct (is_RuntimeError e) eqn:Er.
        -- destruct (close env) as [[]|e']; [reflexivity|]. by destruct (is_Exception e').
        -- by destruct (is_Exception e).
Qed.




(** Whenever [run_until_complete] comes back in [_run_thread], normally or
    with an exception, the teardown runs before the thread function ends
    (the [finally] clause). *)
Lemma run_thread_tears_down (env : thread_env) (s s' : state) (r : result unit) :
  _run_thread env s = Some (r, s') ->
  exists r1 s1 rc,
    run_until_complete env (with_loop (Some (new_event_loop env)) s) = Some (r1, s1) /\
    _cleanup_loop (teardown env) s1 = (rc, s').
Proof.
  unfold _run_thread.
  destruct (run_until_complete env _) as [[r1 s1]|]; [|discriminate].
  intros [= H]. exists r1, s1.
  unfold try_finally in H.
  destruct (try_excepts _ _ s1) as [r2 s2] eqn:Ht.
  assert (s2 = s1) as ->.
  { unfold try_excepts in Ht. destruct r1 as [[]|e]; [by injection Ht|].
    cbn [dispatch] in Ht. cbv [mret M_ret raise] in Ht.
    destruct (is_CancelledError e); [by injection Ht|].
    destruct (is_RuntimeError e); by injection Ht. }
  destruct (_cleanup_loop (teardown env) s1) as [[[]|e] s3];
    injection H as <- <-; eauto.
Qed.

(** * Further properties of the worker *)

(** ** The loop, whatever the environment answers *)

(** One pass through the loop body ends in one of four ways: the swap went
    through and one [mode_change] was pushed; the loop breaks silently; the
    loop breaks after one error message; or an exception outside
    [Exception] leaves with nothing pushed. *)
Lemma loop_body_cases (it : iteration) (s : state) :
  exists r s',
    loop_body it s = (r, s') /\
    ((r = Ok Continue /\ exists mode, output_queue s' = output_queue s ++ [mode_change_msg mode]) \/
     (r = Ok Break /\ output_queue s' = output_queue s) \/
     (r = Ok Break /\ exists text, output_queue s' = output_queue s ++ [error_msg text]) \/
     (exists e, r = Raise e /\ is_Exception e = false /\ output_queue s' = output_queue s)).
Proof.
  destruct (loop_body it s) as [r s'] eqn:Hb. exists r, s'. split; [reflexivity|].
  destruct r as [[]|e].
  - left. split; [reflexivity|].
    destruct (loop_body_continue _ _ _ Hb) as (o & m & s1 & _ & _ & Hq). eauto.
  - rewrite loop_body_unfold in Hb.
    destruct (await_run (it_run it) s) as [r1 s1] eqn:Ha.
    destruct (await_run_inv _ _ _ _ Ha) as (h0 & _ & ->).
    destruct r1 as [[]|e]; [right; left; by injection Hb as <-|].
    destruct (is_CancelledError e); [right; left; by injection Hb as <-|].
    destruct (is_SwitchCoder e).
    + rewrite handle_switch_unfold in Hb.
      destruct (swap _ _ _) as [[[]|e'] s2] eqn:Hs; [discriminate|].
      destruct (swap_raise_inv _ _ _ _ _ Hs) as (h & _ & ->).
      destruct (is_Exception e'); [|discriminate].
      right. right. left. injection Hb as <-. split; [reflexivity|]. eexists. reflexivity.
    + destruct (is_Exception e); [|discriminate].
      right. right. left. injection Hb as <-. split; [reflexivity|]. eexists. reflexivity.
  - right. right. right. exists e. split; [reflexivity|].
    rewrite loop_body_unfold in Hb.
    destruct (await_run (it_run it) s) as [r1 s1] eqn:Ha.
    destruct (await_run_inv _ _ _ _ Ha) as (h0 & _ & ->).
    destruct r1 as [[]|e1]; [discriminate|].
    destruct (is_CancelledError e1); [discriminate|].
    destruct (is_SwitchCoder e1).
    + rewrite handle_switch_unfold in Hb.
      destruct (swap _ _ _) as [[[]|e'] s2] eqn:Hs; [discriminate|].
      destruct (swap_raise_inv _ _ _ _ _ Hs) as (h & _ & ->).
      destruct (is_Exception e') eqn:He; [discriminate|].
      injection Hb as <- <-. by split.
    + destruct (is_Exception e1) eqn:He; [discriminate|].
      injection Hb as <- <-. by split.
Qed.

Lemma mode_change_not_error (mode : value) (text : string) :
  mode_change_msg mode <> error_msg text.
Proof.
  intros Heq. apply (f_equal (fun m : dict => m !! "type")) in Heq.
  vm_compute in Heq. discriminate Heq.
Qed.

(** X1.  Whatever the environment answers, [_async_run] only appends to
    the output queue, and what it appends is a run of [mode_change]
    messages, at most one per answered iteration, followed by at most one
    error message; once an error message is pushed the coroutine has
    returned. *)
Theorem async_run_queue_shape (script : list iteration) (s : state) :
  exists modes errors,
    output_queue (_async_run script s).2
      = output_queue s ++ map mode_change_msg modes ++ errors /\
    length modes <= length script /\
    (errors = [] \/
     exists text, errors = [error_msg text] /\ (_async_run script s).1 = Completed).
Proof.
  revert s. induction script as [|it rest IH]; intros s.
  - exists [], []. simpl. destruct (running s); simpl; rewrite app_nil_r; auto.
  - cbn [_async_run]. destruct (running s).
    2:{ exists [], []. simpl. rewrite app_nil_r. split; [reflexivity|]. split; [lia|by left]. }
    destruct (loop_body_cases it s) as (r & s' & -> & Hc).
    destruct Hc as [(-> & mode & Hq)|[(-> & Hq)|[(-> & text & Hq)|(e & -> & _ & Hq)]]].
    + destruct (IH (if it_stop it then with_running false s' else s'))
        as (modes & errors & Hq' & Hlen & Herr).
      exists (mode :: modes), errors. rewrite Hq'.
      replace (output_queue (if it_stop it then with_running false s' else s'))
        with (output_queue s') by (by destruct (it_stop it)).
      rewrite Hq, <- app_assoc. split; [reflexivity|]. split; [simpl; lia | exact Herr].
    + exists [], []. simpl. rewrite Hq, app_nil_r. split; [reflexivity|]. split; [lia|by left].
    + exists [], [error_msg text]. simpl. split; [exact Hq|]. split; [lia|]. right. eauto.
    + exists [], []. simpl. rewrite Hq, app_nil_r. split; [reflexivity|]. split; [lia|by left].
Qed.

Lemma async_run_escaped_inv (script : list iteration) (s : state) (e : exc) :
  (_async_run script s).1 = Escaped e ->
  is_Exception e = false /\
  exists modes,
    output_queue (_async_run script s).2 = output_queue s ++ map mode_change_msg modes.
Proof.
  revert s. induction script as [|it rest IH]; intros s.
  - simpl. destruct (running s); discriminate.
  - cbn [_async_run]. destruct (running s); [|discriminate].
    destruct (loop_body_cases it s) as (r & s' & -> & Hc).
    destruct Hc as [(-> & mode & Hq)|[(-> & Hq)|[(-> & text & Hq)|(e' & -> & He & Hq)]]];
      try discriminate.
    + intros H. destruct (IH _ H) as [He (modes & Hm)]. split; [exact He|].
      exists (mode :: modes). rewrite Hm.
      replace (output_queue (if it_stop it then with_running false s' else s'))
        with (output_queue s') by (by destruct (it_stop it)).
      by rewrite Hq, <- app_assoc.
    + simpl. intros [= <-]. split; [exact He|]. exists []. simpl. by rewrite app_nil_r.
Qed.

(** X2.  No exception derived from [Exception] ever leaves [_async_run]:
    whatever escapes is a cancellation or another exception outside
    [Exception], and no error message has been pushed for it: the queue has
    gained [mode_change] messages only. *)
Theorem async_run_escapes_only_base (script : list iteration) (s : state) (e : exc) :
  (_async_run script s).1 = Escaped e ->
  is_Exception e = false /\
  exists modes,
    output_queue (_async_run script s).2 = output_queue s ++ map mode_change_msg modes.
Proof. apply async_run_escaped_inv. Qed.

Lemma async_run_escapes_only_base_witness :
  is_Exception (CancelledError EmptyString) = false /\
  exists modes,
    output_queue (_async_run [Sample.switch_it 2 Sample.to_ask; Sample.cancelled_in_create]
                    Sample.s0).2
      = output_queue Sample.s0 ++ map mode_change_msg modes.
Proof.
  apply (async_run_escapes_only_base
           [Sample.switch_it 2 Sample.to_ask; Sample.cancelled_in_create] Sample.s0).
  vm_compute. reflexivity.
Defined.

(** X3.  A run step that returns, or that is cancelled, ends the loop
    silently: the coroutine returns, nothing is pushed, and the session has
    been run exactly once, whatever the environment would answer next. *)
Theorem run_step_ends_silently (it : iteration) (rest : list iteration)
    (s s1 : state) (r : result unit) :
  running s = true ->
  await_run (it_run it) s = (r, s1) ->
  (r = Ok tt \/ exists m, r = Raise (CancelledError m)) ->
  _async_run (it :: rest) s = (Completed, s1) /\
  output_queue s1 = output_queue s /\
  trace s1 = trace s ++ [EvRun (coder s)].
Proof.
  intros Hrun Ha Hr. cbn [_async_run]. rewrite Hrun, loop_body_unfold, Ha.
  destruct (await_run_inv _ _ _ _ Ha) as (h & _ & ->).
  destruct Hr as [->|[m ->]]; by repeat split.
Qed.

Lemma run_step_ends_silently_witness :
  _async_run [ {| it_run := Sample.raises (CancelledError "stop");
                  it_create := Sample.create_at 2; it_stop := false |};
               Sample.run_error ] Sample.s0
    = (Completed, log (EvRun 1) Sample.s0).
Proof.
  destruct (run_step_ends_silently
              {| it_run := Sample.raises (CancelledError "stop");
                 it_create := Sample.create_at 2; it_stop := false |}
              [Sample.run_error] Sample.s0 (log (EvRun 1) Sample.s0)
              (Raise (CancelledError "stop"))) as (H & _).
  - reflexivity.
  - reflexivity.
  - right. by eexists.
  - exact H.
Defined.

(** ** The swap and the outgoing session *)

(** X4.  The swap does not detach the MCP handles from the outgoing
    session: when [Coder.create] built a new object and left the outgoing
    one as it was, the outgoing session is unchanged after the swap, so both
    sessions then refer to the same [mcp_servers] and [mcp_tools]. *)
Theorem swap_leaves_old_session_attached (create : dict -> store -> result loc * store)
    (overrides : dict) (s s' : state) (h : store) :
  handle_switch create overrides s = (Ok Continue, s') ->
  create (swap_kwargs (coder s) (objects s (coder s)) overrides) (objects s)
    = (Ok (coder s'), h) ->
  coder s' <> coder s ->
  h (coder s) = objects s (coder s) ->
  objects s' (coder s) = objects s (coder s) /\
  mcp_servers (objects s' (coder s)) = mcp_servers (objects s' (coder s')) /\
  mcp_tools (objects s' (coder s)) = mcp_tools (objects s' (coder s')).
Proof.
  intros H Hc Hne Hold.
  destruct (handle_switch_continue _ _ _ _ H) as (h' & Hc' & Hs).
  destruct (swap_returns _ _ _ _ _ Hc) as (s2 & Hs2 & _ & _ & Hnew & Hother & _).
  rewrite Hs in Hs2. injection Hs2 as <-.
  assert (Ho : objects s' (coder s) = objects s (coder s)).
  { rewrite Hother by congruence. exact Hold. }
  rewrite Ho, Hnew. by repeat split.
Qed.

Lemma swap_leaves_old_session_attached_witness :
  objects (handle_switch (Sample.create_at 2) Sample.to_architect Sample.s0).2
    (coder Sample.s0)
    = objects Sample.s0 (coder Sample.s0).
Proof.
  destruct (swap_leaves_old_session_attached (Sample.create_at 2) Sample.to_architect
              Sample.s0 (handle_switch (Sample.create_at 2) Sample.to_architect Sample.s0).2
              (Sample.create_at 2
                 (swap_kwargs 1 Sample.code_coder Sample.to_architect)
                 (objects Sample.s0)).2)
    as (Ho & _).
  - vm_compute. reflexivity.
  - vm_compute. reflexivity.
  - vm_compute. discriminate.
  - vm_compute. reflexivity.
  - exact Ho.
Defined.

(** ** [stop], field by field *)

Lemma signal_coder_objects (s : state) :
  let o := objects s (coder s) in
  let o' := objects (signal_coder s).2 (coder s) in
  input_running o' = match input_running o with Some _ => Some (VBool false) | None => None end /\
  output_running o' = match output_running o with Some _ => Some (VBool false) | None => None end /\
  io o' = io o /\ args o' = args o /\ mcp_servers o' = mcp_servers o /\
  mcp_tools o' = mcp_tools o /\ edit_format o' = edit_format o /\
  forall l, l <> coder s -> objects (signal_coder s).2 l = objects s l.
Proof.
  unfold signal_coder. run_monad. simpl.
  destruct (input_running (objects s (coder s))) as [v|] eqn:Ei; simpl.
  - rewrite fn_lookup_insert. simpl.
    destruct (output_running (objects s (coder s))) as [w|] eqn:Eo; simpl.
    + rewrite !fn_lookup_insert. simpl. repeat split.
      intros l Hl. by rewrite !fn_lookup_insert_ne.
    + rewrite !fn_lookup_insert. simpl. rewrite Eo. repeat split.
      intros l Hl. by rewrite !fn_lookup_insert_ne.
  - destruct (output_running (objects s (coder s))) as [w|] eqn:Eo; simpl.
    + rewrite !fn_lookup_insert. simpl. rewrite Ei. repeat split.
      intros l Hl. by rewrite !fn_lookup_insert_ne.
    + rewrite Ei, Eo. by repeat split.
Qed.

Lemma wait_for_thread_state (env : stop_env) (s : state) :
  objects (wait_for_thread env s).2 = objects s /\
  blocked (wait_for_thread env s).2 =
    match thread s with
    | Some t =>
        if thread_is_alive env
        then (blocked s +
              match thread_exits_after env with
              | Some d => if Qle_bool d 2 then d else 2
              | None => 2
              end)%Q
        else blocked s
    | None => blocked s
    end.
Proof.
  unfold wait_for_thread, join. run_monad. simpl.
  destruct (thread s); [destruct (thread_is_alive env)|]; by split.
Qed.

Lemma log_if_fields (b : bool) (ev : event) (s : state) :
  thread (if b then log ev s else s) = thread s /\
  blocked (if b then log ev s else s) = blocked s /\
  objects (if b then log ev s else s) = objects s.
Proof. by destruct b. Qed.

(** [stop] as the composition of its three blocks. *)
Lemma stop_state (env : stop_env) (s : state) :
  let s1 := (signal_coder (with_running false s)).2 in
  let s2 := if bool_decide (is_Some (loop s1)) && loop_is_running env
            then log EvCallSoonStop s1 else s1 in
  (stop env s).2 = (wait_for_thread env s2).2.
Proof.
  intros s1 s2. unfold stop. cbv [mbind M_bind modify].
  destruct (signal_coder_ok (with_running false s)) as (s1' & evs & Hs & _).
  assert (s1' = s1) as -> by (subst s1; by rewrite Hs).
  rewrite Hs, request_loop_stop_ok. reflexivity.
Qed.

(** X5.  [stop()] sets [input_running] and [output_running] of the current
    session to [False] where the session has them and does not create them
    where it has not; it changes nothing else of the session and no other
    object. *)
Theorem stop_clears_session_flags (env : stop_env) (s : state) :
  let o := objects s (coder s) in
  let o' := objects (stop env s).2 (coder s) in
  input_running o' = match input_running o with Some _ => Some (VBool false) | None => None end /\
  output_running o' = match output_running o with Some _ => Some (VBool false) | None => None end /\
  io o' = io o /\ args o' = args o /\ mcp_servers o' = mcp_servers o /\
  mcp_tools o' = mcp_tools o /\ edit_format o' = edit_format o /\
  forall l, l <> coder s -> objects (stop env s).2 l = objects s l.
Proof.
  intros o o'. subst o o'. rewrite stop_state.
  destruct (wait_for_thread_state env
              (if bool_decide (is_Some (loop (signal_coder (with_running false s)).2))
                  && loop_is_running env
               then log EvCallSoonStop (signal_coder (with_running false s)).2
               else (signal_coder (with_running false s)).2)) as [-> _].
  destruct (log_if_fields
              (bool_decide (is_Some (loop (signal_coder (with_running false s)).2))
                 && loop_is_running env)
              EvCallSoonStop (signal_coder (with_running false s)).2) as (_ & _ & ->).
  exact (signal_coder_objects (with_running false s)).
Qed.

(** X6.  [stop()] does not wait when there is nothing to wait for: with no
    thread, or with a thread that has already ended, the caller is not
    blocked at all and no join is made. *)
Theorem stop_without_live_thread_does_not_wait (env : stop_env) (s : state) :
  thread s = None \/ thread_is_alive env = false ->
  blocked (stop env s).2 = blocked s /\
  forall t q, EvJoin t q ∈ trace (stop env s).2 -> EvJoin t q ∈ trace s.
Proof.
  intros Hno.
  destruct (stop_outcome env s)
    as (s1 & evs & Hs & _ & _ & _ & _ & _ & _ & evs1 & Hev1 & -> & Htr).
  split.
  - rewrite stop_state.
    destruct (wait_for_thread_state env
                (if bool_decide (is_Some (loop (signal_coder (with_running false s)).2))
                    && loop_is_running env
                 then log EvCallSoonStop (signal_coder (with_running false s)).2
                 else (signal_coder (with_running false s)).2)) as [_ ->].
    destruct (signal_coder_ok (with_running false s))
      as (s1' & evs' & Hs' & (_ & _ & Ht & _) & Hb & _).
    rewrite Hs'. cbn [snd].
    destruct (log_if_fields (bool_decide (is_Some (loop s1')) && loop_is_running env)
                EvCallSoonStop s1') as (-> & -> & _).
    rewrite Ht, Hb. simpl.
    destruct Hno as [-> | ->]; [reflexivity|]. by destruct (thread s).
  - intros t q. rewrite Hs. cbn [snd]. rewrite Htr, !elem_of_app.
    intros [Hin|[Hin|[Hin|Hin]]]; [exact Hin | | |].
    + rewrite forallb_forall in Hev1. apply list_elem_of_In, Hev1 in Hin. discriminate.
    + destruct (_ && _); [apply list_elem_of_singleton in Hin; discriminate
                         | by apply elem_of_nil in Hin].
    + destruct Hno as [Hn | Hn]; rewrite Hn in Hin.
      * by apply elem_of_nil in Hin.
      * destruct (thread s); by apply elem_of_nil in Hin.
Qed.

Lemma stop_without_live_thread_does_not_wait_witness :
  blocked (stop Sample.never_exits Sample.s0).2 = blocked Sample.s0.
Proof.
  destruct (stop_without_live_thread_does_not_wait Sample.never_exits Sample.s0) as [H _].
  - left. reflexivity.
  - exact H.
Defined.

(** X7.  After two calls of [start()], [stop()] joins the thread of the
    second call only: the thread of the first call was started and is never
    joined. *)
Theorem stop_joins_only_latest_thread (env : stop_env) (s : state) :
  thread_is_alive env = true ->
  let first := threads_created s in
  let s2 := (start (start s).2).2 in
  exists evs,
    trace s2 = trace s ++ [EvThreadStart first; EvThreadStart (S first)] /\
    trace (stop env s2).2 = trace s2 ++ evs /\
    EvJoin (S first) 2 ∈ evs /\
    forall q, EvJoin first q ∉ evs.
Proof.
  intros Halive first s2.
  destruct (stop_outcome env s2)
    as (s3 & evs & Hs & _ & _ & _ & _ & _ & _ & evs1 & Hev1 & Hevs & Htr).
  exists evs. split; [subst s2; simpl; by rewrite <- app_assoc|].
  rewrite Hs. split; [exact Htr|].
  change (thread s2) with (Some (S first)) in Hevs. rewrite Halive in Hevs.
  subst evs. split.
  - rewrite !elem_of_app. right. right. by apply list_elem_of_singleton.
  - intros q. rewrite !elem_of_app. intros [Hin|[Hin|Hin]].
    + rewrite forallb_forall in Hev1. apply list_elem_of_In, Hev1 in Hin. discriminate.
    + destruct (_ && _); [apply list_elem_of_singleton in Hin; discriminate
                         | by apply elem_of_nil in Hin].
    + apply list_elem_of_singleton in Hin. injection Hin as Hn _. lia.
Qed.

Lemma stop_joins_only_latest_thread_witness :
  exists evs,
    trace (stop Sample.never_exits (start Sample.started).2).2
      = trace (start Sample.started).2 ++ evs /\
    EvJoin 1 2 ∈ evs /\ forall q, EvJoin 0 q ∉ evs.
Proof.
  destruct (stop_joins_only_latest_thread Sample.never_exits Sample.s0)
    as (evs & _ & Htr & Hj & Hn).
  - reflexivity.
  - exists evs. split; [exact Htr|]. split; [exact Hj | exact Hn].
Defined.

(** ** Teardown, event by event *)

Lemma log_many_app (evs1 evs2 : list event) (s : state) :
  log_many (evs1 ++ evs2) s = log_many evs2 (log_many evs1 s).
Proof. unfold log_many. apply fold_left_app. Qed.

Lemma log_many_fields (evs : list event) (s : state) :
  coder (log_many evs s) = coder s /\ running (log_many evs s) = running s /\
  thread (log_many evs s) = thread s /\ loop (log_many evs s) = loop s /\
  output_queue (log_many evs s) = output_queue s /\
  objects (log_many evs s) = objects s.
Proof.
  revert s. induction evs as [|ev evs IH]; intros s; [by repeat split|].
  change (log_many (ev :: evs) s) with (log_many evs (log ev s)).
  destruct (IH (log ev s)) as (-> & -> & -> & -> & -> & ->). by repeat split.
Qed.

(** The events of one teardown, from the answers of the loop. *)
Lemma cleanup_events (env : loop_env) (s : state) :
  let drained := negb (is_running env) && negb (bool_decide (all_tasks env = [])) in
  let drain_failed :=
    drained && match drain env (all_tasks env) with
               | Ok _ => false
               | Raise e => negb (is_RuntimeError e)
               end in
  (_cleanup_loop env s).2 =
    log_many
      (if bool_decide (is_Some (loop s)) && negb (is_closed env)
       then map EvCancel (all_tasks env)
              ++ (if drained then [EvDrain (all_tasks env)] else [])
              ++ (if drain_failed then [] else [EvClose])
       else [])
      s.
Proof.
  intros drained drain_failed. subst drained drain_failed.
  rewrite cleanup_unfold.
  destruct (loop s) as [l|]; [|reflexivity].
  rewrite (bool_decide_eq_true_2 (is_Some (Some l))) by eauto.
  destruct (is_closed env); [reflexivity|].
  cbv zeta. cbn [andb negb].
  destruct (is_running env); cbn [andb negb].
  { rewrite log_many_app. destruct (close env) as [[]|e]; reflexivity. }
  destruct (all_tasks env) as [|t ts] eqn:Ep.
  { cbn [map app]. destruct (close env) as [[]|e]; reflexivity. }
  rewrite (bool_decide_eq_false_2 (t :: ts = [])) by discriminate.
  cbn [andb negb].
  destruct (drain env (t :: ts)) as [[]|e].
  - rewrite !log_many_app. destruct (close env) as [[]|e]; reflexivity.
  - destruct (is_RuntimeError e); cbn [negb].
    + rewrite !log_many_app. destruct (close env) as [[]|e']; reflexivity.
    + rewrite app_nil_r, log_many_app. reflexivity.
Qed.

Lemma cleanup_result (env : loop_env) (s : state) :
  (_cleanup_loop env s).1 = Ok tt \/
  exists e, (_cleanup_loop env s).1 = Raise e /\ is_Exception e = false.
Proof.
  rewrite cleanup_unfold.
  destruct (loop s); [|by left].
  destruct (is_closed env); [by left|]. cbv zeta.
  assert (Hclose : forall s2 : state,
            (match close env with
             | Ok _ => (Ok tt, s2)
             | Raise e => (if is_Exception e then Ok tt else Raise e, s2)
             end).1 = Ok tt \/
            exists e, (match close env with
                       | Ok _ => (Ok tt, s2)
                       | Raise e => (if is_Exception e then Ok tt else Raise e, s2)
                       end).1 = Raise e /\ is_Exception e = false).
  { intros s2. destruct (close env) as [[]|e]; [by left|].
    destruct (is_Exception e) eqn:He; [by left | right; eauto]. }
  destruct (is_running env); [apply Hclose|].
  destruct (all_tasks env) as [|t ts]; [apply Hclose|].
  destruct (drain env (t :: ts)) as [[]|e]; [apply Hclose|].
  destruct (is_RuntimeError e); [apply Hclose|].
  destruct (is_Exception e) eqn:He; [by left | right; eauto].
Qed.


(** X9.  [loop.close()] is attempted exactly when the loop exists, is not
    closed, and the drain pass, if one was made, did not fail with
    something other than [RuntimeError].  So a loop that is still running
    is closed all the same, and a drain pass that fails otherwise leaves the
    loop unclosed. *)
Theorem cleanup_close_attempted (env : loop_env) (s : state) :
  exists evs,
    trace (_cleanup_loop env s).2 = trace s ++ evs /\
    (EvClose ∈ evs <->
     is_Some (loop s) /\ is_closed env = false /\
     ~ (is_running env = false /\ all_tasks env <> [] /\
        exists e, drain env (all_tasks env) = Raise e /\ is_RuntimeError e = false)).
Proof.
  rewrite cleanup_events, log_many_trace. eexists. split; [reflexivity|].
  assert (Hnc : forall ts, EvClose ∉ map EvCancel ts).
  { intros ts Hin. apply list_elem_of_In, in_map_iff in Hin.
    destruct Hin as (t & Ht & _). discriminate. }
  destruct (loop s) as [l|].
  2:{ rewrite (bool_decide_eq_false_2 (is_Some None)) by (by intros [? ?]).
      cbn [andb]. split; [by intros ?%elem_of_nil | by intros [[? ?] _]]. }
  rewrite (bool_decide_eq_true_2 (is_Some (Some l))) by eauto.
  destruct (is_closed env); cbn [andb negb].
  { split; [by intros ?%elem_of_nil | by intros (_ & ? & _)]. }
  rewrite !elem_of_app.
  destruct (is_running env); cbn [andb negb].
  { split.
    - intros _. split; [eauto|]. split; [reflexivity|]. by intros (? & _).
    - intros _. right. right. by apply list_elem_of_singleton. }
  destruct (all_tasks env) as [|t ts] eqn:Ep.
  { rewrite (bool_decide_eq_true_2 ([] = [])) by reflexivity. cbn [negb].
    split.
    - intros _. split; [eauto|]. split; [reflexivity|]. by intros (_ & ? & _).
    - intros _. right. right. by apply list_elem_of_singleton. }
  rewrite (bool_decide_eq_false_2 (t :: ts = [])) by discriminate. cbn [negb andb].
  destruct (drain env (t :: ts)) as [[]|e] eqn:Hd.
  - split.
    + intros _. split; [eauto|]. split; [reflexivity|]. by intros (_ & _ & e & ? & _).
    + intros _. right. right. by apply list_elem_of_singleton.
  - destruct (is_RuntimeError e) eqn:Hre; cbn [negb].
    + split.
      * intros _. split; [eauto|]. split; [reflexivity|].
        intros (_ & _ & e' & [= <-] & He'). congruence.
      * intros _. right. right. by apply list_elem_of_singleton.
    + split.
      * intros [Hin|[Hin|Hin]].
        -- by apply Hnc in Hin.
        -- apply list_elem_of_singleton in Hin. discriminate.
        -- by apply elem_of_nil in Hin.
      * intros (_ & _ & Hn). exfalso. apply Hn.
        split; [reflexivity|]. split; [discriminate|]. eauto.
Qed.

(** ** The thread function *)

Lemma swap_frame (create : dict -> store -> result loc * store)
    (overrides : dict) (s : state) :
  loop (swap create overrides s).2 = loop s /\
  thread (swap create overrides s).2 = thread s /\
  blocked (swap create overrides s).2 = blocked s /\
  threads_created (swap create overrides s).2 = threads_created s.
Proof.
  unfold swap. run_monad. simpl.
  destruct (create _ (objects s)) as [[new|e] h]; by repeat split.
Qed.

Lemma loop_body_frame (it : iteration) (s : state) :
  loop (loop_body it s).2 = loop s /\
  thread (loop_body it s).2 = thread s /\
  blocked (loop_body it s).2 = blocked s /\
  threads_created (loop_body it s).2 = threads_created s.
Proof.
  rewrite loop_body_unfold.
  destruct (await_run (it_run it) s) as [r1 s1] eqn:Ha.
  destruct (await_run_inv _ _ _ _ Ha) as (h0 & _ & ->).
  destruct r1 as [[]|e]; [by repeat split|].
  destruct (is_CancelledError e); [by repeat split|].
  destruct (is_SwitchCoder e).
  - rewrite handle_switch_unfold.
    pose proof (swap_frame (it_create it) (switch_kwargs_of e)
                  (log (EvRun (coder s)) (with_objects h0 s))) as Hf.
    destruct (swap _ _ _) as [[[]|e'] s2]; simpl in Hf; [exact Hf|].
    destruct (is_Exception e'); exact Hf.
  - destruct (is_Exception e); by repeat split.
Qed.

(** [_async_run] leaves the thread, the loop and the clock alone. *)
Lemma async_run_frame (script : list iteration) (s : state) :
  loop (_async_run script s).2 = loop s /\
  thread (_async_run script s).2 = thread s /\
  blocked (_async_run script s).2 = blocked s /\
  threads_created (_async_run script s).2 = threads_created s.
Proof.
  revert s. induction script as [|it rest IH]; intros s.
  - simpl. by destruct (running s).
  - cbn [_async_run]. destruct (running s); [|by repeat split].
    pose proof (loop_body_frame it s) as Hf.
    destruct (loop_body it s) as [[[]|e] s1]; simpl in Hf; try exact Hf.
    destruct (IH (if it_stop it then with_running false s1 else s1))
      as (-> & -> & -> & ->).
    by destruct (it_stop it).
Qed.

(** X10.  [_run_thread] never ends with an exception derived from
    [Exception]: the loop lets none out, the two shutdown exceptions are
    swallowed, and the teardown swallows its own.  When it ends, [self.loop]
    is still the loop it created. *)
Theorem run_thread_never_raises_exception (env : thread_env) (s s' : state)
    (r : result unit) :
  _run_thread env s = Some (r, s') ->
  (forall e, r = Raise e -> is_Exception e = false) /\
  loop s' = Some (new_event_loop env).
Proof.
  intros H.
  destruct (run_thread_tears_down _ _ _ _ H) as (r1 & s1 & rc & Hrun & Hclean).
  assert (Hr1 : forall e, r1 = Raise e -> is_Exception e = false \/ is_RuntimeError e = true).
  { unfold run_until_complete in Hrun.
    pose proof (async_run_escaped_inv (script env)
                  (with_loop (Some (new_event_loop env)) s)) as Hesc.
    destruct (_async_run _ _) as [[|e0|] s0]; simpl in Hesc.
    - injection Hrun as <- <-. discriminate.
    - injection Hrun as <- <-. intros e [= <-]. left. by apply (Hesc e0).
    - destruct (loop_stopped env); [|discriminate].
      injection Hrun as <- <-. intros e [= <-]. by right. }
  assert (Hloop : loop s1 = Some (new_event_loop env)).
  { unfold run_until_complete in Hrun.
    destruct (async_run_frame (script env) (with_loop (Some (new_event_loop env)) s))
      as (Hl & _).
    destruct (_async_run _ _) as [[|e0|] s0]; simpl in Hl.
    - by injection Hrun as <- <-.
    - by injection Hrun as <- <-.
    - destruct (loop_stopped env); [|discriminate]. by injection Hrun as <- <-. }
  pose proof (cleanup_result (teardown env) s1) as Hres.
  pose proof (cleanup_events (teardown env) s1) as Hev.
  rewrite Hclean in Hres, Hev. cbn [fst snd] in Hres, Hev. cbv zeta in Hev.
  split.
  2:{ rewrite Hev. by destruct (log_many_fields
        (if bool_decide (is_Some (loop s1)) && negb (is_closed (teardown env))
         then map EvCancel (all_tasks (teardown env))
                ++ (if negb (is_running (teardown env))
                       && negb (bool_decide (all_tasks (teardown env) = []))
                    then [EvDrain (all_tasks (teardown env))] else [])
                ++ (if negb (is_running (teardown env))
                       && negb (bool_decide (all_tasks (teardown env) = []))
                       && match drain (teardown env) (all_tasks (teardown env)) with
                          | Ok _ => false
                          | Raise e => negb (is_RuntimeError e)
                          end
                    then [] else [EvClose])
         else []) s1) as (_ & _ & _ & -> & _). }
  unfold _run_thread in H. rewrite Hrun in H.
  unfold try_finally, try_excepts in H.
  intros e ->.
  destruct r1 as [[]|e1].
  - rewrite Hclean in H.
    destruct Hres as [-> | (e' & -> & He')]; [by injection H | by injection H as <-].
  - cbn [dispatch] in H. cbv [mret M_ret raise] in H.
    destruct (is_CancelledError e1);
      [rewrite Hclean in H;
       destruct Hres as [-> | (e' & -> & He')]; [by injection H | by injection H as <-]|].
    destruct (is_RuntimeError e1) eqn:Hre; rewrite Hclean in H;
      (destruct Hres as [-> | (e' & -> & He')]; [|by injection H as <-]).
    + by injection H.
    + injection H as <-. destruct (Hr1 e1 eq_refl); congruence.
Qed.

Lemma run_thread_never_raises_exception_witness :
  exists s',
    _run_thread
      {| new_event_loop := 7; script := [Sample.run_error]; loop_stopped := false;
         teardown := Sample.exit_in_drain |} Sample.started
      = Some (Raise (BaseExceptionSubclass "SystemExit" EmptyString), s') /\
    loop s' = Some 7.
Proof.
  eexists. split; [vm_compute; reflexivity|].
  eapply (run_thread_never_raises_exception
            {| new_event_loop := 7; script := [Sample.run_error]; loop_stopped := false;
               teardown := Sample.exit_in_drain |} Sample.started).
  vm_compute. reflexivity.
Defined.

(** X11.  The shutdown paths end the thread function quietly: when the
    coroutine returned, or was cancelled, or was left suspended by a loop
    that [stop()] stopped, what [_run_thread] returns is exactly what the
    teardown returns, on the state the loop left. *)
Theorem run_thread_swallows_shutdown (env : thread_env) (s : state) :
  let s0 := with_loop (Some (new_event_loop env)) s in
  let st := (_async_run (script env) s0).1 in
  let s1 := (_async_run (script env) s0).2 in
  (st = Completed \/ (exists m, st = Escaped (CancelledError m)) \/
   (st = Suspended /\ loop_stopped env = true)) ->
  _run_thread env s = Some (_cleanup_loop (teardown env) s1).
Proof.
  intros s0 st s1 Hst. subst st s1.
  unfold _run_thread, run_until_complete. fold s0.
  destruct (_async_run (script env) s0) as [st s1]. cbn [fst snd] in *.
  unfold try_finally, try_excepts.
  destruct Hst as [-> | [[m ->] | [-> ->]]]; cbn [dispatch is_CancelledError is_RuntimeError];
    cbv [mret M_ret];
    by destruct (_cleanup_loop (teardown env) s1) as [[[]|e] s2].
Qed.

Lemma run_thread_swallows_shutdown_witness :
  _run_thread
    {| new_event_loop := 7; script := []; loop_stopped := true;
       teardown := {| is_closed := false; all_tasks := [0]; is_running := false;
                      drain := fun _ => Ok tt; close := Ok tt |} |}
    Sample.started
  = Some (Ok tt,
          log_many [EvCancel 0; EvDrain [0]; EvClose] (with_loop (Some 7) Sample.started)).
Proof.
  rewrite (run_thread_swallows_shutdown
             {| new_event_loop := 7; script := []; loop_stopped := true;
                teardown := {| is_closed := false; all_tasks := [0]; is_running := false;
                               drain := fun _ => Ok tt; close := Ok tt |} |}
             Sample.started).
  - reflexivity.
  - right. right. by split.
Defined.

(** * The prompt registry *)

(** ** Dictionaries in insertion order *)

Lemma pr_get_set_eq (key : string) (v : PromptRegistry.node) (d : PromptRegistry.pdict) :
  PromptRegistry.get key (PromptRegistry.set key v d) = Some v.
Proof.
  induction d as [|[k v'] rest IH]; simpl.
  - by rewrite String.eqb_refl.
  - destruct (String.eqb k key) eqn:E; simpl; rewrite E; [reflexivity | exact IH].
Qed.

Lemma pr_get_set_ne (key key' : string) (v : PromptRegistry.node)
    (d : PromptRegistry.pdict) :
  key <> key' ->
  PromptRegistry.get key' (PromptRegistry.set key v d) = PromptRegistry.get key' d.
Proof.
  intros Hne. induction d as [|[k v'] rest IH]; simpl.
  - destruct (String.eqb key key') eqn:E; [|reflexivity].
    apply String.eqb_eq in E. contradiction.
  - destruct (String.eqb k key) eqn:E; simpl.
    + apply String.eqb_eq in E. subst k.
      destruct (String.eqb key key') eqn:E'; [|reflexivity].
      apply String.eqb_eq in E'. contradiction.
    + by rewrite IH.
Qed.

Lemma pr_get_None_keys (key : string) (d : PromptRegistry.pdict) :
  PromptRegistry.get key d = None <-> ~ In key (map fst d).
Proof.
  induction d as [|[k v] rest IH]; simpl; [tauto|].
  destruct (String.eqb k key) eqn:E.
  - apply String.eqb_eq in E. split; [discriminate | tauto].
  - apply String.eqb_neq in E. rewrite IH. tauto.
Qed.

Lemma pr_get_In (key : string) (v : PromptRegistry.node) (d : PromptRegistry.pdict) :
  NoDup (map fst d) -> In (key, v) d -> PromptRegistry.get key d = Some v.
Proof.
  induction d as [|[k v'] rest IH]; simpl; [tauto|].
  intros Hnd [Heq|Hin].
  - injection Heq as -> ->. by rewrite String.eqb_refl.
  - apply NoDup_cons in Hnd as [Hk Hnd]. rewrite list_elem_of_In in Hk.
    destruct (String.eqb k key) eqn:E; [|by apply IH].
    apply String.eqb_eq in E. subst k. exfalso. apply Hk.
    apply in_map_iff. by exists (key, v).
Qed.

Lemma pr_keys_set (key : string) (v : PromptRegistry.node) (d : PromptRegistry.pdict) :
  map fst (PromptRegistry.set key v d) =
    if PromptRegistry.contains key d then map fst d else map fst d ++ [key].
Proof.
  unfold PromptRegistry.contains.
  induction d as [|[k v'] rest IH]; simpl; [reflexivity|].
  destruct (String.eqb k key) eqn:E; simpl; [reflexivity|].
  rewrite IH. by destruct (PromptRegistry.get key rest).
Qed.

Lemma pr_set_same (key : string) (v : PromptRegistry.node) (d : PromptRegistry.pdict) :
  PromptRegistry.get key d = Some v -> PromptRegistry.set key v d = d.
Proof.
  induction d as [|[k v'] rest IH]; simpl; [discriminate|].
  destruct (String.eqb k key) eqn:E.
  - by intros [= ->].
  - intros H. by rewrite IH.
Qed.

(** ** [_merge_prompts] *)

(** X12.  [_merge_prompts] key by key: a key the override lacks keeps the
    base's value; a key the override has takes the override's value, except
    that where both sides hold mappings the two are merged recursively. *)
Theorem merge_prompts_lookup (base override : PromptRegistry.pdict) (key : string) :
  NoDup (map fst override) ->
  PromptRegistry.get key (PromptRegistry._merge_prompts base override) =
    match PromptRegistry.get key override with
    | None => PromptRegistry.get key base
    | Some v =>
        Some match PromptRegistry.get key base, v with
             | Some (PromptRegistry.Mapping b), PromptRegistry.Mapping o =>
                 PromptRegistry.Mapping (PromptRegistry._merge_prompts b o)
             | _, _ => v
             end
    end.
Proof.
  unfold PromptRegistry._merge_prompts.
  revert base. induction override as [|[k v] rest IH]; intros base Hnd; [reflexivity|].
  simpl in Hnd. apply NoDup_cons in Hnd as [Hk Hnd]. rewrite list_elem_of_In in Hk.
  cbn [PromptRegistry.merge_into PromptRegistry.get].
  rewrite (IH _ Hnd).
  destruct (String.eqb k key) eqn:E.
  - apply String.eqb_eq in E. subst k.
    apply pr_get_None_keys in Hk. rewrite Hk, pr_get_set_eq.
    destruct (PromptRegistry.get key base) as [[?|b]|], v as [?|o]; reflexivity.
  - apply String.eqb_neq in E. rewrite (pr_get_set_ne _ _ _ _ E). reflexivity.
Qed.

Lemma merge_prompts_lookup_witness :
  PromptRegistry.get "main_system"
    (PromptRegistry._merge_prompts
       [("main_system", PromptRegistry.Leaf (VStr "base text"));
        ("lazy_prompt", PromptRegistry.Leaf (VStr "keep"))]
       [("main_system", PromptRegistry.Leaf (VStr "agent text"))])
    = Some (PromptRegistry.Leaf (VStr "agent text")).
Proof.
  rewrite (merge_prompts_lookup
             [("main_system", PromptRegistry.Leaf (VStr "base text"));
              ("lazy_prompt", PromptRegistry.Leaf (VStr "keep"))]
             [("main_system", PromptRegistry.Leaf (VStr "agent text"))] "main_system").
  - reflexivity.
  - apply (bool_decide_unpack _). vm_compute. exact I.
Defined.

(** X13.  The merged dictionary keeps the base's keys in the base's order
    and appends the keys that only the override has, in the override's
    order. *)
Theorem merge_prompts_key_order (base override : PromptRegistry.pdict) :
  NoDup (map fst override) ->
  map fst (PromptRegistry._merge_prompts base override) =
    map fst base ++
    List.filter (fun k => negb (PromptRegistry.contains k base)) (map fst override).
Proof.
  unfold PromptRegistry._merge_prompts.
  revert base. induction override as [|[k v] rest IH]; intros base Hnd.
  - simpl. by rewrite app_nil_r.
  - simpl in Hnd. apply NoDup_cons in Hnd as [Hk Hnd]. rewrite list_elem_of_In in Hk.
    cbn [PromptRegistry.merge_into map fst List.filter].
    rewrite (IH _ Hnd), pr_keys_set.
    assert (Hf : forall m,
      List.filter (fun k0 => negb (PromptRegistry.contains k0 (PromptRegistry.set k m base)))
        (map fst rest)
      = List.filter (fun k0 => negb (PromptRegistry.contains k0 base)) (map fst rest)).
    { intros m. apply filter_ext_in. intros k0 Hin.
      unfold PromptRegistry.contains.
      rewrite pr_get_set_ne; [reflexivity|]. intros ->. contradiction. }
    rewrite Hf.
    destruct (PromptRegistry.contains k base); simpl; [reflexivity|].
    by rewrite <- app_assoc.
Qed.

Lemma merge_prompts_key_order_witness :
  map fst
    (PromptRegistry._merge_prompts
       [("a", PromptRegistry.Leaf VNone); ("b", PromptRegistry.Leaf VNone)]
       [("c", PromptRegistry.Leaf VNone); ("a", PromptRegistry.Leaf (VInt 1))])
    = ["a"; "b"; "c"].
Proof.
  rewrite merge_prompts_key_order.
  - reflexivity.
  - apply (bool_decide_unpack _). vm_compute. exact I.
Defined.

Lemma pr_wf_node_mapping (items : PromptRegistry.pdict) :
  PromptRegistry.wf_node (PromptRegistry.Mapping items) <->
  NoDup (map fst items) /\
  forall k v, In (k, v) items -> PromptRegistry.wf_node v.
Proof.
  cbn [PromptRegistry.wf_node].
  assert (H : forall l : PromptRegistry.pdict,
    (fix all (l : PromptRegistry.pdict) : Prop :=
       match l with
       | [] => True
       | (_, v) :: rest => PromptRegistry.wf_node v /\ all rest
       end) l <-> forall k v, In (k, v) l -> PromptRegistry.wf_node v).
  { induction l as [|[k v] rest IH]; [simpl; tauto|].
    rewrite IH. split.
    - intros [Hv Hrest] k' v' [[= <- <-]|Hin]; [exact Hv | by eapply Hrest].
    - intros Hall. split; [apply (Hall k); by left|].
      intros k' v' Hin. apply (Hall k'). by right. }
  by rewrite H.
Qed.

Lemma pr_size_In (k : string) (v : PromptRegistry.node) (items : PromptRegistry.pdict) :
  In (k, v) items ->
  PromptRegistry.size_node v < PromptRegistry.size_node (PromptRegistry.Mapping items).
Proof.
  cbn [PromptRegistry.size_node].
  induction items as [|[k' v'] rest IH]; [intros []|].
  intros [[= <- <-]|Hin]; [lia|]. specialize (IH Hin). lia.
Qed.

Lemma pr_merge_agree_sized (n : nat) :
  forall base override : PromptRegistry.pdict,
    PromptRegistry.size_node (PromptRegistry.Mapping override) <= n ->
    (forall k v, In (k, v) override ->
       PromptRegistry.get k base = Some v /\ PromptRegistry.wf_node v) ->
    PromptRegistry.merge_into base override = base.
Proof.
  induction n as [|n IHn]; intros base override Hsize Hagree.
  - cbn [PromptRegistry.size_node] in Hsize. lia.
  - revert Hsize Hagree. induction override as [|[k v] rest IHrest]; intros Hsize Hagree.
    + reflexivity.
    + cbn [PromptRegistry.merge_into].
      destruct (Hagree k v) as [Hget Hwf]; [by left|]. rewrite Hget.
      assert (Hv : PromptRegistry.merge_value (Some v) v = v).
      { destruct v as [x|o]; [reflexivity|].
        change (PromptRegistry.merge_value (Some (PromptRegistry.Mapping o))
                  (PromptRegistry.Mapping o))
          with (PromptRegistry.Mapping (PromptRegistry.merge_into o o)).
        f_equal. apply IHn.
        - pose proof (pr_size_In k (PromptRegistry.Mapping o) ((k, PromptRegistry.Mapping o) :: rest)
                        (or_introl eq_refl)). lia.
        - apply pr_wf_node_mapping in Hwf as [Hnd Hall].
          intros k' v' Hin. split; [by apply pr_get_In | by eapply Hall]. }
      rewrite Hv, (pr_set_same _ _ _ Hget).
      apply IHrest.
      * cbn [PromptRegistry.size_node] in *. lia.
      * intros k' v' Hin. apply Hagree. by right.
Qed.

(** X14.  An override whose every entry is already in the base, with the
    same value, leaves the base as it is; so a dictionary merged with
    itself comes back unchanged. *)
Theorem merge_prompts_agreeing_override (base override : PromptRegistry.pdict) :
  (forall k v, In (k, v) override ->
     PromptRegistry.get k base = Some v /\ PromptRegistry.wf_node v) ->
  PromptRegistry._merge_prompts base override = base.
Proof.
  intros H. unfold PromptRegistry._merge_prompts.
  by apply (pr_merge_agree_sized
              (PromptRegistry.size_node (PromptRegistry.Mapping override))).
Qed.

Lemma pr_merge_self (d : PromptRegistry.pdict) :
  PromptRegistry.wf d -> PromptRegistry._merge_prompts d d = d.
Proof.
  intros Hwf. apply pr_wf_node_mapping in Hwf as [Hnd Hall].
  apply (pr_merge_agree_sized (PromptRegistry.size_node (PromptRegistry.Mapping d)));
    [lia|].
  intros k v Hin. split; [by apply pr_get_In | by eapply Hall].
Qed.

Lemma merge_prompts_agreeing_override_witness :
  PromptRegistry._merge_prompts
    [("files", PromptRegistry.Mapping [("add", PromptRegistry.Leaf (VStr "x"))]);
     ("lazy", PromptRegistry.Leaf VNone)]
    [("files", PromptRegistry.Mapping [("add", PromptRegistry.Leaf (VStr "x"))])]
  = [("files", PromptRegistry.Mapping [("add", PromptRegistry.Leaf (VStr "x"))]);
     ("lazy", PromptRegistry.Leaf VNone)].
Proof.
  apply merge_prompts_agreeing_override.
  intros k v [[= <- <-]|[]]. split; [reflexivity|].
  apply pr_wf_node_mapping. split.
  - apply (bool_decide_unpack _). vm_compute. exact I.
  - intros k' v' [[= <- <-]|[]]. exact I.
Defined.

(** ** The cache *)

(** X15.  Once [get_prompt] has returned the prompts of a name, every
    later call for that name returns the same prompts and leaves the
    registry as it is, whatever the files have become in the meantime. *)
Theorem get_prompt_cached (fs fs' : PromptRegistry.disk) (name : string)
    (reg reg' : PromptRegistry.registry) (d : PromptRegistry.pdict) :
  PromptRegistry.get_prompt fs name reg = (Ok d, reg') ->
  PromptRegistry.get_prompt fs' name reg' = (Ok d, reg').
Proof.
  unfold PromptRegistry.get_prompt at 1.
  destruct (PromptRegistry._prompts_cache reg !! name) as [c|] eqn:Hc.
  - intros [= <- <-]. unfold PromptRegistry.get_prompt. by rewrite Hc.
  - destruct (PromptRegistry._get_base_prompts fs reg) as [[b|e] reg1]; [|discriminate].
    destruct (PromptRegistry._load_yaml_file fs (name +:+ ".yml")) as [sp|e]; [|discriminate].
    intros [= <- <-]. unfold PromptRegistry.get_prompt. cbn.
    by rewrite lookup_insert_eq.
Qed.

Lemma get_prompt_cached_witness :
  let fs := {| PromptRegistry.files := fun _ => PromptRegistry.Missing;
               PromptRegistry.path_str := fun n => n |} in
  let fs' := {| PromptRegistry.files :=
                  fun _ => PromptRegistry.Content [("k", PromptRegistry.Leaf VNone)];
                PromptRegistry.path_str := fun n => n |} in
  let reg := {| PromptRegistry._prompts_cache := ∅;
                PromptRegistry._base_prompts := None |} in
  (PromptRegistry.get_prompt fs' "agent" (PromptRegistry.get_prompt fs "agent" reg).2).1
    = Ok [].
Proof.
  intros fs fs' reg.
  rewrite (get_prompt_cached fs fs' "agent" reg
             (PromptRegistry.get_prompt fs "agent" reg).2 []); reflexivity.
Defined.

(** X16.  A prompt name that has no file of its own gets the base prompts
    unchanged, and that result is cached under the name. *)
Theorem get_prompt_missing_file (fs : PromptRegistry.disk) (name : string)
    (reg reg1 : PromptRegistry.registry) (b : PromptRegistry.pdict) :
  PromptRegistry._prompts_cache reg !! name = None ->
  PromptRegistry._get_base_prompts fs reg = (Ok b, reg1) ->
  PromptRegistry.files fs (name +:+ ".yml") = PromptRegistry.Missing ->
  exists reg2,
    PromptRegistry.get_prompt fs name reg = (Ok b, reg2) /\
    PromptRegistry._prompts_cache reg2 !! name = Some b /\
    PromptRegistry._base_prompts reg2 = Some b.
Proof.
  intros Hc Hb Hf. unfold PromptRegistry.get_prompt.
  rewrite Hc, Hb. unfold PromptRegistry._load_yaml_file. rewrite Hf.
  eexists. split; [reflexivity|]. cbn. split; [by rewrite lookup_insert_eq|].
  unfold PromptRegistry._get_base_prompts in Hb.
  destruct (PromptRegistry._base_prompts reg) as [b0|] eqn:Hb0.
  - injection Hb as <- <-. exact Hb0.
  - destruct (PromptRegistry._load_yaml_file fs "base.yml"); [|discriminate].
    by injection Hb as <- <-.
Qed.

Lemma get_prompt_missing_file_witness :
  exists reg2,
    PromptRegistry.get_prompt
      {| PromptRegistry.files := fun n =>
           if String.eqb n "base.yml"
           then PromptRegistry.Content [("main_system", PromptRegistry.Leaf (VStr "base text"))]
           else PromptRegistry.Missing;
         PromptRegistry.path_str := fun n => n |}
      "wholefile"
      {| PromptRegistry._prompts_cache := ∅; PromptRegistry._base_prompts := None |}
    = (Ok [("main_system", PromptRegistry.Leaf (VStr "base text"))], reg2).
Proof.
  destruct (get_prompt_missing_file
    {| PromptRegistry.files := fun n =>
         if String.eqb n "base.yml"
         then PromptRegistry.Content [("main_system", PromptRegistry.Leaf (VStr "base text"))]
         else PromptRegistry.Missing;
       PromptRegistry.path_str := fun n => n |}
    "wholefile"
    {| PromptRegistry._prompts_cache := ∅; PromptRegistry._base_prompts := None |}
    {| PromptRegistry._prompts_cache := ∅;
       PromptRegistry._base_prompts :=
         Some [("main_system", PromptRegistry.Leaf (VStr "base text"))] |}
    [("main_system", PromptRegistry.Leaf (VStr "base text"))])
    as (reg2 & H & _); [reflexivity | reflexivity | reflexivity |].
  by exists reg2.
Defined.

(** X17.  A YAML syntax error in the file of a prompt name makes
    [get_prompt] raise [ValueError] naming the file; nothing is cached
    under the name, so a later call reads the file again, while the base
    prompts loaded on the way stay cached. *)
Theorem get_prompt_invalid_yaml (fs : PromptRegistry.disk) (name err : string)
    (reg reg1 : PromptRegistry.registry) (b : PromptRegistry.pdict) :
  PromptRegistry._prompts_cache reg !! name = None ->
  PromptRegistry._get_base_prompts fs reg = (Ok b, reg1) ->
  PromptRegistry.files fs (name +:+ ".yml") = PromptRegistry.Invalid err ->
  PromptRegistry.get_prompt fs name reg =
    (Raise (ExceptionSubclass "ValueError"
              ("Error parsing YAML file "
                 +:+ PromptRegistry.path_str fs (name +:+ ".yml") +:+ ": " +:+ err)),
     reg1) /\
  PromptRegistry._prompts_cache reg1 !! name = None /\
  PromptRegistry._base_prompts reg1 = Some b /\
  forall fs' sp,
    PromptRegistry.files fs' (name +:+ ".yml") = PromptRegistry.Content sp ->
    (PromptRegistry.get_prompt fs' name reg1).1 = Ok (PromptRegistry._merge_prompts b sp).
Proof.
  intros Hc Hb Hf.
  assert (Hreg1 : PromptRegistry._prompts_cache reg1 = PromptRegistry._prompts_cache reg /\
                  PromptRegistry._base_prompts reg1 = Some b).
  { unfold PromptRegistry._get_base_prompts in Hb.
    destruct (PromptRegistry._base_prompts reg) as [b0|] eqn:Hb0.
    - by injection Hb as <- <-.
    - destruct (PromptRegistry._load_yaml_file fs "base.yml"); [|discriminate].
      by injection Hb as <- <-. }
  destruct Hreg1 as [Hc1 Hb1].
  split; [|split; [by rewrite Hc1|split; [exact Hb1|]]].
  - unfold PromptRegistry.get_prompt. rewrite Hc, Hb.
    unfold PromptRegistry._load_yaml_file. by rewrite Hf.
  - intros fs' sp Hf'. unfold PromptRegistry.get_prompt.
    rewrite Hc1, Hc. unfold PromptRegistry._get_base_prompts. rewrite Hb1.
    unfold PromptRegistry._load_yaml_file. by rewrite Hf'.
Qed.

Lemma get_prompt_invalid_yaml_witness :
  (PromptRegistry.get_prompt
     {| PromptRegistry.files := fun n =>
          if String.eqb n "base.yml" then PromptRegistry.Content []
          else PromptRegistry.Invalid "mapping values are not allowed here";
        PromptRegistry.path_str := fun n => "prompts/" +:+ n |}
     "agent"
     {| PromptRegistry._prompts_cache := ∅; PromptRegistry._base_prompts := None |}).1
  = Raise (ExceptionSubclass "ValueError"
       "Error parsing YAML file prompts/agent.yml: mapping values are not allowed here").
Proof.
  destruct (get_prompt_invalid_yaml
    {| PromptRegistry.files := fun n =>
         if String.eqb n "base.yml" then PromptRegistry.Content []
         else PromptRegistry.Invalid "mapping values are not allowed here";
       PromptRegistry.path_str := fun n => "prompts/" +:+ n |}
    "agent" "mapping values are not allowed here"
    {| PromptRegistry._prompts_cache := ∅; PromptRegistry._base_prompts := None |}
    {| PromptRegistry._prompts_cache := ∅; PromptRegistry._base_prompts := Some [] |}
    []) as (H & _); [reflexivity | reflexivity | reflexivity |].
  by rewrite H.
Defined.

(** X18.  The base prompts are read once: after a call of [get_prompt]
    that missed the cache and succeeded, the base prompts are cached, and
    every later miss merges that cached base with the file of its name,
    whatever [base.yml] has become. *)
Theorem base_prompts_read_once (fs : PromptRegistry.disk) (name : string)
    (reg reg1 : PromptRegistry.registry) (d : PromptRegistry.pdict) :
  PromptRegistry._prompts_cache reg !! name = None ->
  PromptRegistry.get_prompt fs name reg = (Ok d, reg1) ->
  exists b,
    PromptRegistry._get_base_prompts fs reg = (Ok b, {|
      PromptRegistry._prompts_cache := PromptRegistry._prompts_cache reg;
      PromptRegistry._base_prompts := Some b |}) /\
    PromptRegistry._base_prompts reg1 = Some b /\
    forall fs' name' sp,
      PromptRegistry._prompts_cache reg1 !! name' = None ->
      PromptRegistry._load_yaml_file fs' (name' +:+ ".yml") = Ok sp ->
      (PromptRegistry.get_prompt fs' name' reg1).1
        = Ok (PromptRegistry._merge_prompts b sp).
Proof.
  intros Hc H. unfold PromptRegistry.get_prompt in H. rewrite Hc in H.
  destruct (PromptRegistry._get_base_prompts fs reg) as [[b|e] reg0] eqn:Hb; [|discriminate].
  assert (Hreg0 : reg0 = {| PromptRegistry._prompts_cache := PromptRegistry._prompts_cache reg;
                            PromptRegistry._base_prompts := Some b |}).
  { unfold PromptRegistry._get_base_prompts in Hb.
    destruct (PromptRegistry._base_prompts reg) as [b0|] eqn:Hb0.
    - injection Hb as <- <-. destruct reg as [c bb]. simpl in *. by subst bb.
    - destruct (PromptRegistry._load_yaml_file fs "base.yml"); [|discriminate].
      by injection Hb as <- <-. }
  destruct (PromptRegistry._load_yaml_file fs (name +:+ ".yml")) as [sp0|e]; [|discriminate].
  injection H as <- <-. exists b. subst reg0. split; [reflexivity|]. cbn.
  split; [reflexivity|].
  intros fs' name' sp Hc' Hl. unfold PromptRegistry.get_prompt, PromptRegistry._get_base_prompts.
  cbn in *. by rewrite Hc', Hl.
Qed.

Lemma base_prompts_read_once_witness :
  exists b,
    PromptRegistry._base_prompts
      (PromptRegistry.get_prompt
         {| PromptRegistry.files := fun _ => PromptRegistry.Content [("k", PromptRegistry.Leaf VNone)];
            PromptRegistry.path_str := fun n => n |}
         "agent"
         {| PromptRegistry._prompts_cache := ∅; PromptRegistry._base_prompts := None |}).2
    = Some b.
Proof.
  destruct (base_prompts_read_once
    {| PromptRegistry.files := fun _ => PromptRegistry.Content [("k", PromptRegistry.Leaf VNone)];
       PromptRegistry.path_str := fun n => n |}
    "agent"
    {| PromptRegistry._prompts_cache := ∅; PromptRegistry._base_prompts := None |}
    (PromptRegistry.get_prompt
         {| PromptRegistry.files := fun _ => PromptRegistry.Content [("k", PromptRegistry.Leaf VNone)];
            PromptRegistry.path_str := fun n => n |}
         "agent"
         {| PromptRegistry._prompts_cache := ∅; PromptRegistry._base_prompts := None |}).2
    [("k", PromptRegistry.Leaf VNone)]) as (b & _ & Hb & _);
    [reflexivity | reflexivity |].
  by exists b.
Defined.

(** * The input widget *)

(** ** Loading the history *)

Lemma ia_ensure_loaded (l : InputArea.load_outcome) (w : InputArea.t) (h : list string) :
  InputArea._history w = Some h ->
  InputArea._ensure_history_loaded l w = (Ok h, w).
Proof. intros H. unfold InputArea._ensure_history_loaded. by rewrite H. Qed.

Lemma ia_with_history_same (w : InputArea.t) (h : list string) :
  InputArea._history w = Some h -> InputArea.with_history (Some h) w = w.
Proof. destruct w. simpl. by intros ->. Qed.

(** After [_ensure_history_loaded] the history is loaded, nothing else of
    the widget has changed, and an exception is one the file raised. *)
Lemma ia_ensure_cases (l : InputArea.load_outcome) (w : InputArea.t) :
  exists h,
    (InputArea._ensure_history_loaded l w).2 = InputArea.with_history (Some h) w /\
    (forall h0, InputArea._history w = Some h0 -> h = h0) /\
    ((InputArea._ensure_history_loaded l w).1 = Ok h \/
     exists x, (InputArea._ensure_history_loaded l w).1 = Raise x /\
               l = InputArea.LoadFails x /\ h = []).
Proof.
  unfold InputArea._ensure_history_loaded.
  destruct (InputArea._history w) as [h0|] eqn:Hh.
  - exists h0. simpl. split; [by rewrite ia_with_history_same|].
    split; [by intros ? [= ->] | by left].
  - destruct (InputArea.has_file _).
    + destruct l as [nf| |x].
      * exists (rev nf). simpl. split; [reflexivity|]. split; [discriminate | by left].
      * exists []. simpl. split; [reflexivity|]. split; [discriminate | by left].
      * exists []. simpl. split; [reflexivity|]. split; [discriminate|]. right. by exists x.
    + exists []. simpl. split; [reflexivity|]. split; [discriminate | by left].
Qed.

(** X19.  The history file is read at most once: after any call of
    [_ensure_history_loaded], also one that found no file or failed, the
    history is set, and every later call returns it as it is without
    consulting the file again. *)
Theorem history_loaded_once (l l' : InputArea.load_outcome) (w : InputArea.t) :
  exists h,
    InputArea._history (InputArea._ensure_history_loaded l w).2 = Some h /\
    InputArea._ensure_history_loaded l' (InputArea._ensure_history_loaded l w).2
      = (Ok h, (InputArea._ensure_history_loaded l w).2) /\
    (InputArea._history w = None -> InputArea.has_file w = false -> h = []) /\
    (InputArea._history w = None -> l = InputArea.LoadOSError -> h = []) /\
    (forall newest_first,
       InputArea._history w = None -> InputArea.has_file w = true ->
       l = InputArea.Loaded newest_first -> h = rev newest_first).
Proof.
  destruct (InputArea._history w) as [h0|] eqn:Hh.
  - rewrite (ia_ensure_loaded l w h0 Hh). cbn [snd].
    exists h0. split; [exact Hh|]. split; [by apply ia_ensure_loaded|].
    repeat split; discriminate.
  - assert (Heq : InputArea._ensure_history_loaded l w =
              let w0 := InputArea.with_history (Some []) w in
              if InputArea.has_file w then
                match l with
                | InputArea.Loaded nf =>
                    (Ok (rev nf), InputArea.with_history (Some (rev nf)) w0)
                | InputArea.LoadOSError => (Ok [], w0)
                | InputArea.LoadFails e => (Raise e, w0)
                end
              else (Ok [], w0)).
    { unfold InputArea._ensure_history_loaded. by rewrite Hh. }
    rewrite Heq. cbv zeta.
    destruct (InputArea.has_file w) eqn:Hf.
    + destruct l as [nf| |x]; eexists; (split; [reflexivity|]);
        (split; [reflexivity|]); repeat split; try discriminate; auto.
      by intros ? _ _ [= ->].
    + exists []. split; [reflexivity|]. split; [reflexivity|].
      repeat split; auto; discriminate.
Qed.

(** ** Moving through the history *)

Lemma ia_py_index_in_range (h : list string) (i : Z) :
  (0 <= i < Z.of_nat (length h))%Z ->
  InputArea.py_index h i = Ok (nth (Z.to_nat i) h EmptyString).
Proof.
  intros Hi. unfold InputArea.py_index.
  destruct (Z.ltb_spec i 0); [lia|].
  destruct (Z.leb_spec 0 i); [|lia].
  destruct (Z.ltb_spec i (Z.of_nat (length h))); [reflexivity | lia].
Qed.

(** [_history_prev] on a loaded, non-empty history, by where the index
    stands. *)
Lemma ia_prev_loaded (l : InputArea.load_outcome) (w : InputArea.t) (h : list string) :
  InputArea._history w = Some h -> h <> [] ->
  (-1 <= InputArea._history_index w < Z.of_nat (length h))%Z ->
  let i := InputArea._history_index w in
  let i' := (if i =? -1 then Z.of_nat (length h) - 1 else if 0 <? i then i - 1 else i)%Z in
  exists w',
    InputArea._history_prev l w = (Ok tt, w') /\
    InputArea._history w' = Some h /\
    InputArea._history_index w' = i' /\
    InputArea._saved_input w' =
      (if (i =? -1)%Z then InputArea.value w else InputArea._saved_input w) /\
    (i <> 0%Z -> InputArea.value w' = nth (Z.to_nat i') h EmptyString) /\
    (i = 0%Z -> w' = w) /\
    InputArea.disabled w' = InputArea.disabled w /\
    InputArea.completion_active w' = InputArea.completion_active w /\
    InputArea.posted w' = InputArea.posted w.
Proof.
  intros Hh Hne Hi i i'. subst i i'.
  unfold InputArea._history_prev. rewrite (ia_ensure_loaded l w h Hh).
  destruct h as [|e0 h']; [contradiction|].
  set (h := e0 :: h') in *.
  destruct (Z.eqb_spec (InputArea._history_index w) (-1)) as [E|E].
  - cbn [InputArea._history_index InputArea.with_index].
    rewrite ia_py_index_in_range by (subst h; simpl length; lia).
    eexists. split; [reflexivity|]. simpl. repeat split; auto. lia.
  - destruct (Z.ltb_spec 0 (InputArea._history_index w)) as [E'|E'].
    + cbn [InputArea._history_index InputArea.with_index].
      rewrite ia_py_index_in_range by lia.
      eexists. split; [reflexivity|]. simpl. repeat split; auto. lia.
    + exists w. repeat split; auto; lia.
Qed.

(** [_history_next] on a loaded history, by where the index stands. *)
Lemma ia_next_loaded (l : InputArea.load_outcome) (w : InputArea.t) (h : list string) :
  InputArea._history w = Some h ->
  (-1 <= InputArea._history_index w < Z.of_nat (length h))%Z ->
  let i := InputArea._history_index w in
  exists w',
    InputArea._history_next l w = (Ok tt, w') /\
    InputArea._history w' = Some h /\
    InputArea._saved_input w' = InputArea._saved_input w /\
    (i = (-1)%Z -> w' = w) /\
    ((0 <= i < Z.of_nat (length h) - 1)%Z ->
       InputArea._history_index w' = (i + 1)%Z /\
       InputArea.value w' = nth (Z.to_nat (i + 1)) h EmptyString) /\
    (i = (Z.of_nat (length h) - 1)%Z -> (0 <= i)%Z ->
       InputArea._history_index w' = (-1)%Z /\
       InputArea.value w' = InputArea._saved_input w) /\
    InputArea.disabled w' = InputArea.disabled w /\
    InputArea.completion_active w' = InputArea.completion_active w /\
    InputArea.posted w' = InputArea.posted w.
Proof.
  intros Hh Hi i. subst i.
  unfold InputArea._history_next.
  destruct (Z.eqb_spec (InputArea._history_index w) (-1)) as [E|E].
  - exists w. repeat split; auto; lia.
  - rewrite (ia_ensure_loaded l w h Hh).
    destruct (Z.ltb_spec (InputArea._history_index w) (Z.of_nat (length h) - 1)) as [E'|E'].
    + cbn [InputArea._history_index InputArea.with_index].
      rewrite ia_py_index_in_range by lia.
      eexists. split; [reflexivity|]. simpl. repeat split; auto; lia.
    + eexists. split; [reflexivity|]. simpl. repeat split; auto; lia.
Qed.

Lemma ia_nav_ok_loaded (w : InputArea.t) (h : list string) :
  InputArea.nav_ok w ->
  (forall h0, InputArea._history w = Some h0 -> h = h0) ->
  InputArea.nav_ok (InputArea.with_history (Some h) w).
Proof.
  unfold InputArea.nav_ok. intros Hok Hh. simpl.
  destruct (InputArea._history w) as [h0|].
  - by rewrite (Hh h0 eq_refl).
  - lia.
Qed.

(** With the history loaded first, [_history_prev] does what it does on
    the loaded widget. *)
Lemma ia_prev_via_loaded (l : InputArea.load_outcome) (w : InputArea.t) (h : list string) :
  (InputArea._ensure_history_loaded l w).1 = Ok h ->
  (InputArea._ensure_history_loaded l w).2 = InputArea.with_history (Some h) w ->
  InputArea._history_prev l w
    = InputArea._history_prev l (InputArea.with_history (Some h) w).
Proof.
  intros H1 H2. unfold InputArea._history_prev.
  rewrite (ia_ensure_loaded l (InputArea.with_history (Some h) w) h eq_refl).
  destruct (InputArea._ensure_history_loaded l w) as [r w1]. cbn [fst snd] in *.
  by subst r w1.
Qed.

Lemma ia_prev_keeps_nav (l : InputArea.load_outcome) (w : InputArea.t) :
  InputArea.nav_ok w ->
  InputArea.nav_ok (InputArea._history_prev l w).2 /\
  forall x, (InputArea._history_prev l w).1 = Raise x -> l = InputArea.LoadFails x.
Proof.
  intros Hok.
  destruct (ia_ensure_cases l w) as (h & Hw1 & Hsame & Hr).
  pose proof (ia_nav_ok_loaded w h Hok Hsame) as Hok1.
  destruct Hr as [Hr | (x & Hr & -> & ->)].
  2:{ unfold InputArea._history_prev.
      destruct (InputArea._ensure_history_loaded (InputArea.LoadFails x) w) as [r w1].
      cbn [fst snd] in *. subst r w1. split; [exact Hok1|]. by intros ? [= ->]. }
  rewrite (ia_prev_via_loaded l w h Hr Hw1).
  destruct h as [|e0 h'].
  { unfold InputArea._history_prev.
    rewrite (ia_ensure_loaded l (InputArea.with_history (Some []) w) [] eq_refl).
    split; [exact Hok1 | discriminate]. }
  destruct (ia_prev_loaded l (InputArea.with_history (Some (e0 :: h')) w) (e0 :: h'))
    as (w' & Hp & Hh' & Hi' & _); [reflexivity | discriminate | exact Hok1 |].
  rewrite Hp. cbn [fst snd]. split; [|discriminate].
  unfold InputArea.nav_ok. rewrite Hh', Hi'.
  unfold InputArea.nav_ok in Hok1.
  cbn [InputArea._history InputArea.with_history InputArea._history_index] in *.
  destruct (Z.eqb_spec (InputArea._history_index w) (-1)); [lia|].
  destruct (Z.ltb_spec 0 (InputArea._history_index w)); lia.
Qed.

Lemma ia_next_keeps_nav (l : InputArea.load_outcome) (w : InputArea.t) :
  InputArea.nav_ok w ->
  InputArea.nav_ok (InputArea._history_next l w).2 /\
  forall x, (InputArea._history_next l w).1 = Raise x -> l = InputArea.LoadFails x.
Proof.
  intros Hok.
  unfold InputArea._history_next.
  destruct (Z.eqb_spec (InputArea._history_index w) (-1)) as [E|E];
    [split; [exact Hok | discriminate]|].
  destruct (InputArea._history w) as [h|] eqn:Hh.
  2:{ unfold InputArea.nav_ok in Hok. rewrite Hh in Hok. contradiction. }
  destruct (ia_next_loaded l w h Hh) as (w' & Hn & Hh' & _ & _ & Hmid & Hlast & _).
  { unfold InputArea.nav_ok in Hok. by rewrite Hh in Hok. }
  unfold InputArea._history_next in Hn.
  destruct (Z.eqb_spec (InputArea._history_index w) (-1)) as [E2|_]; [contradiction|].
  rewrite Hn. cbn [fst snd]. split; [|discriminate].
  unfold InputArea.nav_ok in *. rewrite Hh in Hok. rewrite Hh'.
  destruct (Z.ltb_spec (InputArea._history_index w) (Z.of_nat (length h) - 1)).
  - destruct Hmid as [-> _]; lia.
  - destruct Hlast as [-> _]; lia.
Qed.

(** X20.  Every key press and every save keeps the navigation index at
    [-1] or at a position inside the loaded history.  So the history is
    never indexed out of range: the only exception a key press can raise is
    one the history file raised while being loaded, and the only ones a save
    can raise are the file's as well. *)
Theorem navigation_index_stays_valid (isspace : Ascii.ascii -> bool)
    (e : InputArea.env) (key text : string) (w : InputArea.t) :
  InputArea.nav_ok w ->
  (InputArea.nav_ok (InputArea.on_key (InputArea.load e) key w).2 /\
   forall x, (InputArea.on_key (InputArea.load e) key w).1 = Raise x ->
             InputArea.load e = InputArea.LoadFails x) /\
  (InputArea.nav_ok (InputArea.save_to_history isspace e text w).2 /\
   forall x, (InputArea.save_to_history isspace e text w).1 = Raise x ->
             InputArea.load e = InputArea.LoadFails x \/
             InputArea.append e = InputArea.AppendFails x).
Proof.
  intros Hok. split.
  - unfold InputArea.on_key.
    destruct (InputArea.disabled w); [split; [exact Hok | discriminate]|].
    destruct (String.eqb key "tab").
    { destruct (InputArea.completion_active w); split; try exact Hok; discriminate. }
    destruct (String.eqb key "escape" && InputArea.completion_active w).
    { split; [exact Hok | discriminate]. }
    destruct (String.eqb key "up").
    { destruct (ia_prev_keeps_nav (InputArea.load e) w Hok) as [H1 H2].
      destruct (InputArea._history_prev (InputArea.load e) w) as [[[]|x] w'];
        cbn [fst snd] in *; split; auto; try discriminate.
      intros ? [= <-]. by apply H2. }
    destruct (String.eqb key "down").
    { destruct (ia_next_keeps_nav (InputArea.load e) w Hok) as [H1 H2].
      destruct (InputArea._history_next (InputArea.load e) w) as [[[]|x] w'];
        cbn [fst snd] in *; split; auto; try discriminate.
      intros ? [= <-]. by apply H2. }
    split; [exact Hok | discriminate].
  - unfold InputArea.save_to_history.
    destruct (InputArea.too_short isspace text); [split; [exact Hok | discriminate]|].
    destruct (ia_ensure_cases (InputArea.load e) w) as (h & Hw1 & Hsame & Hr).
    pose proof (ia_nav_ok_loaded w h Hok Hsame) as Hok1.
    destruct (InputArea._ensure_history_loaded (InputArea.load e) w) as [r w1].
    cbn [fst snd] in *. subst w1.
    destruct Hr as [-> | (x & -> & Hl & ->)].
    2:{ split; [exact Hok1|]. intros ? [= <-]. by left. }
    destruct (match last h with Some newest => String.eqb newest text | None => false end);
      [split; [exact Hok1 | discriminate]|].
    destruct (if InputArea.has_file _ then InputArea.append e else InputArea.Appended)
      as [| |x] eqn:Ha.
    + split; [|discriminate]. unfold InputArea.nav_ok. simpl. rewrite length_app. simpl. lia.
    + split; [|discriminate]. unfold InputArea.nav_ok. simpl. rewrite length_app. simpl. lia.
    + split; [exact Hok1|]. intros ? [= <-]. right.
      destruct (InputArea.has_file _); [exact Ha | discriminate].
Qed.

Lemma navigation_index_stays_valid_witness :
  InputArea.nav_ok
    (InputArea.on_key (InputArea.Loaded ["newest"; "older"]) "up"
       (InputArea.init (Some ".aider.input.history"))).2.
Proof.
  apply (navigation_index_stays_valid (fun _ => false)
           {| InputArea.load := InputArea.Loaded ["newest"; "older"];
              InputArea.append := InputArea.Appended |}
           "up" EmptyString (InputArea.init (Some ".aider.input.history"))).
  reflexivity.
Defined.

Lemma ia_press_app (l : InputArea.load_outcome) (ks1 ks2 : list string) (w : InputArea.t) :
  InputArea.press l (ks1 ++ ks2) w =
    match InputArea.press l ks1 w with
    | (Ok _, w') => InputArea.press l ks2 w'
    | (Raise x, w') => (Raise x, w')
    end.
Proof.
  revert w. induction ks1 as [|k ks1 IH]; intros w; [reflexivity|].
  cbn [app InputArea.press].
  destruct (InputArea.on_key l k w) as [[b|x] w']; [apply IH | reflexivity].
Qed.

Lemma ia_on_key_up (l : InputArea.load_outcome) (w : InputArea.t) :
  InputArea.disabled w = false ->
  InputArea.on_key l "up" w =
    match InputArea._history_prev l w with
    | (Ok _, w') => (Ok true, w')
    | (Raise x, w') => (Raise x, w')
    end.
Proof. intros H. unfold InputArea.on_key. by rewrite H. Qed.

Lemma ia_on_key_down (l : InputArea.load_outcome) (w : InputArea.t) :
  InputArea.disabled w = false ->
  InputArea.on_key l "down" w =
    match InputArea._history_next l w with
    | (Ok _, w') => (Ok true, w')
    | (Raise x, w') => (Raise x, w')
    end.
Proof. intros H. unfold InputArea.on_key. by rewrite H. Qed.

Lemma ia_ups_from (l : InputArea.load_outcome) (h : list string) (v0 : string) (k : nat) :
  forall (w : InputArea.t) (i : Z),
    ia_at h v0 i w -> (0 <= i < Z.of_nat (length h))%Z ->
    exists w',
      InputArea.press l (repeat "up" k) w = (Ok tt, w') /\
      ia_at h v0 (Z.max 0 (i - Z.of_nat k)) w'.
Proof.
  induction k as [|k IH]; intros w i Hat Hi.
  - exists w. split; [reflexivity|]. by replace (Z.max 0 (i - Z.of_nat 0)) with i by lia.
  - destruct Hat as (Hh & Hs & Hidx & Hv & Hd).
    assert (Hne : h <> []) by (intros ->; simpl in Hi; lia).
    destruct (ia_prev_loaded l w h Hh Hne) as
      (w1 & Hp & Hh1 & Hi1 & Hs1 & Hv1 & Hsame & Hd1 & _); [lia|].
    cbn [repeat InputArea.press]. rewrite (ia_on_key_up l w Hd), Hp.
    rewrite Hidx in *.
    destruct (Z.eqb_spec i (-1)); [lia|].
    destruct (Z.ltb_spec 0 i).
    + destruct (IH w1 (i - 1)%Z) as (w' & Hpr & Hat'); [|lia|].
      { repeat split; auto; try congruence; try (apply Hv1; lia). }
      exists w'. split; [exact Hpr|].
      by replace (Z.max 0 (i - Z.of_nat (S k))) with (Z.max 0 (i - 1 - Z.of_nat k)) by lia.
    + assert (i = 0%Z) as -> by lia. rewrite (Hsame eq_refl) in *.
      destruct (IH w 0%Z) as (w' & Hpr & Hat'); [by repeat split | lia |].
      exists w'. split; [exact Hpr|].
      by replace (Z.max 0 (0 - Z.of_nat (S k))) with (Z.max 0 (0 - Z.of_nat k)) by lia.
Qed.

Lemma ia_downs_idle (l : InputArea.load_outcome) (k : nat) (w : InputArea.t) :
  InputArea._history_index w = (-1)%Z -> InputArea.disabled w = false ->
  InputArea.press l (repeat "down" k) w = (Ok tt, w).
Proof.
  intros Hi Hd. induction k as [|k IH]; [reflexivity|].
  cbn [repeat InputArea.press]. rewrite (ia_on_key_down l w Hd).
  unfold InputArea._history_next. by rewrite Hi.
Qed.

Lemma ia_downs_from (l : InputArea.load_outcome) (h : list string) (v0 : string) (k : nat) :
  forall (w : InputArea.t) (i : Z),
    ia_at h v0 i w -> (0 <= i < Z.of_nat (length h))%Z ->
    exists w',
      InputArea.press l (repeat "down" k) w = (Ok tt, w') /\
      InputArea._history w' = Some h /\ InputArea.disabled w' = false /\
      if (i + Z.of_nat k <? Z.of_nat (length h))%Z
      then ia_at h v0 (i + Z.of_nat k) w'
      else InputArea._history_index w' = (-1)%Z /\ InputArea.value w' = v0.
Proof.
  induction k as [|k IH]; intros w i Hat Hi.
  - exists w. split; [reflexivity|]. destruct Hat as (Hh & Hs & Hidx & Hv & Hd).
    split; [exact Hh|]. split; [exact Hd|].
    destruct (Z.ltb_spec (i + Z.of_nat 0) (Z.of_nat (length h))); [|lia].
    replace (i + Z.of_nat 0)%Z with i by lia. by repeat split.
  - destruct Hat as (Hh & Hs & Hidx & Hv & Hd).
    destruct (ia_next_loaded l w h Hh) as
      (w1 & Hn & Hh1 & Hs1 & _ & Hmid & Hlast & Hd1 & _); [lia|].
    cbn [repeat InputArea.press]. rewrite (ia_on_key_down l w Hd), Hn.
    rewrite Hidx in *.
    destruct (Z.ltb_spec i (Z.of_nat (length h) - 1)).
    + destruct Hmid as [Hi1 Hv1]; [lia|].
      destruct (IH w1 (i + 1)%Z) as (w' & Hpr & Hh' & Hd' & Hif); [|lia|].
      { repeat split; auto; congruence. }
      exists w'. split; [exact Hpr|]. split; [exact Hh'|]. split; [exact Hd'|].
      replace (i + Z.of_nat (S k))%Z with (i + 1 + Z.of_nat k)%Z by lia. exact Hif.
    + destruct Hlast as [Hi1 Hv1]; [lia | lia |].
      rewrite (ia_downs_idle l k w1 Hi1) by congruence.
      exists w1. split; [reflexivity|]. split; [exact Hh1|]. split; [congruence|].
      destruct (Z.ltb_spec (i + Z.of_nat (S k)) (Z.of_nat (length h))); [lia|].
      split; [exact Hi1 | congruence].
Qed.

(** The first Up from the typed input. *)
Lemma ia_first_up (l : InputArea.load_outcome) (h : list string) (w : InputArea.t) :
  InputArea._history w = Some h -> h <> [] ->
  InputArea._history_index w = (-1)%Z -> InputArea.disabled w = false ->
  exists w',
    InputArea.on_key l "up" w = (Ok true, w') /\
    ia_at h (InputArea.value w) (Z.of_nat (length h) - 1) w'.
Proof.
  intros Hh Hne Hi Hd.
  destruct (ia_prev_loaded l w h Hh Hne) as
    (w1 & Hp & Hh1 & Hi1 & Hs1 & Hv1 & _ & Hd1 & _); [lia|].
  rewrite (ia_on_key_up l w Hd), Hp. exists w1. split; [reflexivity|].
  rewrite Hi in *. change ((-1 =? -1)%Z) with true in *. cbn iota in *.
  repeat split; auto; try congruence; try (apply Hv1; lia).
Qed.

(** X21.  Pressing Up [n] times and then Down [n] times brings back what
    was typed: the input shows its former text again and the navigation is
    over, however long the history is. *)
Theorem up_then_down_restores_input (l : InputArea.load_outcome) (n : nat)
    (w : InputArea.t) (h : list string) :
  InputArea._history w = Some h ->
  InputArea._history_index w = (-1)%Z ->
  InputArea.disabled w = false ->
  exists w',
    InputArea.press l (repeat "up" n ++ repeat "down" n) w = (Ok tt, w') /\
    InputArea.value w' = InputArea.value w /\
    InputArea._history_index w' = (-1)%Z /\
    InputArea._history w' = Some h.
Proof.
  intros Hh Hi Hd. rewrite ia_press_app.
  destruct n as [|k]; [by exists w|].
  destruct h as [|e0 h'].
  - assert (Hup : forall m, InputArea.press l (repeat "up" m) w = (Ok tt, w)).
    { induction m as [|m IH]; [reflexivity|].
      cbn [repeat InputArea.press]. rewrite (ia_on_key_up l w Hd).
      unfold InputArea._history_prev. by rewrite (ia_ensure_loaded l w [] Hh). }
    rewrite Hup, (ia_downs_idle l (S k) w Hi Hd). by exists w.
  - set (h := e0 :: h') in *.
    destruct (ia_first_up l h w Hh) as (w1 & Hu & Hat1); [discriminate | exact Hi | exact Hd |].
    change (InputArea.press l (repeat "up" (S k)) w) with
      (match InputArea.on_key l "up" w with
       | (Ok _, w') => InputArea.press l (repeat "up" k) w'
       | (Raise x, w') => (Raise x, w')
       end).
    rewrite Hu.
    destruct (ia_ups_from l h (InputArea.value w) k w1 (Z.of_nat (length h) - 1) Hat1)
      as (w2 & Hp2 & Hat2); [subst h; simpl length; lia|].
    rewrite Hp2.
    destruct (ia_downs_from l h (InputArea.value w) (S k) w2 _ Hat2)
      as (w3 & Hp3 & Hh3 & _ & Hif); [subst h; simpl length; lia|].
    rewrite Hp3.
    exists w3. split; [reflexivity|].
    destruct (Z.ltb_spec (Z.max 0 (Z.of_nat (length h) - 1 - Z.of_nat k) + Z.of_nat (S k))
                (Z.of_nat (length h))); [lia|].
    destruct Hif as [Hi3 Hv3]. by repeat split.
Qed.

Lemma up_then_down_restores_input_witness :
  exists w',
    InputArea.press InputArea.LoadOSError (repeat "up" 5 ++ repeat "down" 5)
      (InputArea.with_value "draft"
         (InputArea.with_history (Some ["first"; "second"]) (InputArea.init None)))
      = (Ok tt, w') /\
    InputArea.value w' = "draft".
Proof.
  destruct (up_then_down_restores_input InputArea.LoadOSError 5
              (InputArea.with_value "draft"
                 (InputArea.with_history (Some ["first"; "second"]) (InputArea.init None)))
              ["first"; "second"]) as (w' & Hp & Hv & _); [reflexivity..|].
  exists w'. split; [exact Hp | exact Hv].
Defined.

(** X22.  From the typed input, the [k]-th press of Up shows the [k]-th
    most recent entry of the history (the last one of the list first), and
    once the oldest entry is shown further presses change nothing; the
    typed text is kept aside meanwhile. *)
Theorem up_shows_kth_most_recent (l : InputArea.load_outcome) (k : nat)
    (w : InputArea.t) (h : list string) :
  InputArea._history w = Some h -> h <> [] ->
  InputArea._history_index w = (-1)%Z ->
  InputArea.disabled w = false ->
  exists w',
    InputArea.press l (repeat "up" (S k)) w = (Ok tt, w') /\
    InputArea.value w' = nth (length h - 1 - Nat.min k (length h - 1)) h EmptyString /\
    InputArea._saved_input w' = InputArea.value w.
Proof.
  intros Hh Hne Hi Hd.
  destruct (ia_first_up l h w Hh Hne Hi Hd) as (w1 & Hu & Hat1).
  assert (Hlen : (0 < length h)%nat) by (destruct h; [contradiction | simpl; lia]).
  destruct (ia_ups_from l h (InputArea.value w) k w1 (Z.of_nat (length h) - 1) Hat1)
    as (w2 & Hp2 & (_ & Hs2 & _ & Hv2 & _)); [lia|].
  exists w2.
  change (InputArea.press l (repeat "up" (S k)) w) with
    (match InputArea.on_key l "up" w with
     | (Ok _, w') => InputArea.press l (repeat "up" k) w'
     | (Raise x, w') => (Raise x, w')
     end).
  rewrite Hu, Hp2. split; [reflexivity|]. split; [|exact Hs2].
  rewrite Hv2. f_equal. lia.
Qed.

Lemma up_shows_kth_most_recent_witness :
  exists w',
    InputArea.press InputArea.LoadOSError (repeat "up" 2)
      (InputArea.with_value "draft"
         (InputArea.with_history (Some ["first"; "second"; "third"]) (InputArea.init None)))
      = (Ok tt, w') /\
    InputArea.value w' = "second" /\ InputArea._saved_input w' = "draft".
Proof.
  destruct (up_shows_kth_most_recent InputArea.LoadOSError 1
              (InputArea.with_value "draft"
                 (InputArea.with_history (Some ["first"; "second"; "third"])
                    (InputArea.init None)))
              ["first"; "second"; "third"]) as (w' & Hp & Hv & Hs);
    [reflexivity | discriminate | reflexivity | reflexivity |].
  exists w'. split; [exact Hp|]. split; [exact Hv | exact Hs].
Defined.




(** ** The status bar *)

Lemma sb_set_mode (m : string) (w : StatusBar.t) :
  StatusBar.mode (StatusBar.set_mode m w) = m /\
  StatusBar._timer (StatusBar.set_mode m w) = StatusBar._timer w /\
  StatusBar.running (StatusBar.set_mode m w) = StatusBar.running w /\
  StatusBar.next_timer (StatusBar.set_mode m w) = StatusBar.next_timer w /\
  StatusBar.posted (StatusBar.set_mode m w) = StatusBar.posted w /\
  StatusBar._show_all (StatusBar.set_mode m w) = StatusBar._show_all w /\
  StatusBar._text (StatusBar.set_mode m w) = StatusBar._text w /\
  StatusBar._severity (StatusBar.set_mode m w) = StatusBar._severity w /\
  StatusBar.children (StatusBar.set_mode m w) = StatusBar.children w.
Proof.
  unfold StatusBar.set_mode, StatusBar.watch_mode.
  destruct (String.eqb_spec (StatusBar.mode w) m) as [E|E]; [by repeat split|].
  by destruct (String.eqb m "hidden").
Qed.

Lemma sb_set_mode_look (m : string) (w : StatusBar.t) :
  ("hidden" ∈ StatusBar.classes w <-> StatusBar.mode w = "hidden") ->
  StatusBar.can_focus w = String.eqb (StatusBar.mode w) "confirm" ->
  ("hidden" ∈ StatusBar.classes (StatusBar.set_mode m w) <-> m = "hidden") /\
  StatusBar.can_focus (StatusBar.set_mode m w) = String.eqb m "confirm".
Proof.
  intros Hc Hf. unfold StatusBar.set_mode, StatusBar.watch_mode.
  destruct (String.eqb_spec (StatusBar.mode w) m) as [E|E]; [by subst m|].
  clear Hc Hf.
  destruct (String.eqb_spec m "hidden") as [->|Hm]; simpl.
  - split; [|reflexivity]. split; [done | intros _].
    apply elem_of_union_r, elem_of_singleton. reflexivity.
  - split; [|reflexivity]. split; [|done].
    intros [_ H]%elem_of_difference. destruct H. by apply elem_of_singleton.
Qed.

Lemma sb_cancel_timer (w : StatusBar.t) :
  StatusBar.consistent w ->
  StatusBar._timer (StatusBar.cancel_timer w) = None /\
  StatusBar.running (StatusBar.cancel_timer w) = [] /\
  StatusBar.mode (StatusBar.cancel_timer w) = StatusBar.mode w /\
  StatusBar.classes (StatusBar.cancel_timer w) = StatusBar.classes w /\
  StatusBar.can_focus (StatusBar.cancel_timer w) = StatusBar.can_focus w /\
  StatusBar.next_timer (StatusBar.cancel_timer w) = StatusBar.next_timer w /\
  StatusBar.posted (StatusBar.cancel_timer w) = StatusBar.posted w /\
  StatusBar.children (StatusBar.cancel_timer w) = StatusBar.children w.
Proof.
  intros (Ht & _). unfold StatusBar.cancel_timer, StatusBar.stop_timer.
  destruct (StatusBar._timer w) as [tm|] eqn:E.
  - destruct Ht as (Hr & _). cbn. rewrite Hr. cbn.
    rewrite decide_False by (intros H; by apply H). by repeat split.
  - by rewrite E.
Qed.

Lemma sb_cancel_timer_keeps (w : StatusBar.t) :
  StatusBar.mode (StatusBar.cancel_timer w) = StatusBar.mode w /\
  StatusBar.posted (StatusBar.cancel_timer w) = StatusBar.posted w /\
  StatusBar._show_all (StatusBar.cancel_timer w) = StatusBar._show_all w /\
  StatusBar.children (StatusBar.cancel_timer w) = StatusBar.children w /\
  StatusBar._timer (StatusBar.cancel_timer w) = None.
Proof.
  unfold StatusBar.cancel_timer.
  by destruct (StatusBar._timer w) eqn:E.
Qed.

Lemma sb_hide_facts (w : StatusBar.t) :
  StatusBar.mode (StatusBar.hide w) = "hidden" /\
  StatusBar.posted (StatusBar.hide w) = StatusBar.posted w /\
  StatusBar.children (StatusBar.hide w) = StatusBar.children w /\
  StatusBar._timer (StatusBar.hide w) = None.
Proof.
  unfold StatusBar.hide.
  destruct (sb_set_mode "hidden" (StatusBar.cancel_timer w))
    as (Hm & Ht & _ & _ & Hp & _ & _ & _ & Hc).
  destruct (sb_cancel_timer_keeps w) as (_ & Hp' & _ & Hc' & Ht').
  repeat split; congruence.
Qed.

Lemma sb_hide_consistent (w : StatusBar.t) :
  StatusBar.consistent w -> StatusBar.consistent (StatusBar.hide w).
Proof.
  intros Hw. pose proof Hw as (_ & Hc & Hf).
  destruct (sb_cancel_timer w Hw) as (Ht & Hr & Hm & Hcl & Hcf & _).
  unfold StatusBar.hide.
  destruct (sb_set_mode "hidden" (StatusBar.cancel_timer w)) as (Hm' & Ht' & Hr' & _).
  destruct (sb_set_mode_look "hidden" (StatusBar.cancel_timer w)) as (Hc' & Hf');
    [by rewrite Hcl, Hm | by rewrite Hcf, Hm |].
  unfold StatusBar.consistent.
  rewrite Ht', Ht, Hr', Hr, Hm', Hf'. split; [reflexivity|]. split; [|reflexivity].
  split; [done | intros _; by apply Hc'].
Qed.

Lemma sb_show_notification_facts (text severity : string) (timeout : option Q)
    (w : StatusBar.t) :
  StatusBar.consistent w ->
  let w' := StatusBar.show_notification text severity timeout w in
  StatusBar.consistent w' /\
  StatusBar.mode w' = "notification" /\
  (if StatusBar.truthy timeout
   then StatusBar._timer w' = Some (StatusBar.next_timer w) /\
        StatusBar.running w' = [StatusBar.next_timer w]
   else StatusBar._timer w' = None /\ StatusBar.running w' = []).
Proof.
  intros Hw w'. subst w'. pose proof Hw as (_ & Hc & Hf).
  destruct (sb_cancel_timer w Hw) as (Ht & Hr & Hm & Hcl & Hcf & Hn & _).
  unfold StatusBar.show_notification.
  set (w1 := StatusBar.with_severity severity
               (StatusBar.with_text text (StatusBar.cancel_timer w))).
  destruct (sb_set_mode "notification" w1) as (Hm' & Ht' & Hr' & Hn' & _).
  destruct (sb_set_mode_look "notification" w1) as (Hc' & Hf');
    [subst w1; cbn; by rewrite Hcl, Hm | subst w1; cbn; by rewrite Hcf, Hm |].
  set (w2 := StatusBar.set_mode "notification" w1) in *.
  assert (Hreb : StatusBar._rebuild_content w2 =
                 StatusBar.with_children (StatusBar.children (StatusBar._rebuild_content w2)) w2).
  { unfold StatusBar._rebuild_content. by rewrite Hm'. }
  rewrite Hreb.
  assert (Ht2 : StatusBar._timer w2 = None) by (rewrite Ht'; subst w1; cbn; exact Ht).
  assert (Hr2 : StatusBar.running w2 = []) by (rewrite Hr'; subst w1; cbn; exact Hr).
  assert (Hn2 : StatusBar.next_timer w2 = StatusBar.next_timer w)
    by (rewrite Hn'; subst w1; cbn; exact Hn).
  destruct (StatusBar.truthy timeout).
  - unfold StatusBar.consistent. cbn. rewrite Hr2, Hn2, Hm', Hf'.
    repeat split; try done; try lia; by apply Hc'.
  - unfold StatusBar.consistent. cbn. rewrite Ht2, Hr2, Hm', Hf'.
    repeat split; try done; by apply Hc'.
Qed.

Lemma sb_show_confirm_facts (question : string) (show_all : bool) (w : StatusBar.t) :
  StatusBar.consistent w ->
  let w' := StatusBar.show_confirm question show_all w in
  StatusBar.consistent w' /\
  StatusBar._timer w' = None /\ StatusBar.running w' = [].
Proof.
  intros Hw w'. subst w'. pose proof Hw as (_ & Hc & Hf).
  destruct (sb_cancel_timer w Hw) as (Ht & Hr & Hm & Hcl & Hcf & Hn & _).
  unfold StatusBar.show_confirm.
  set (w1 := StatusBar.with_show_all show_all
               (StatusBar.with_text question (StatusBar.cancel_timer w))).
  destruct (sb_set_mode "confirm" w1) as (Hm' & Ht' & Hr' & Hn' & _).
  destruct (sb_set_mode_look "confirm" w1) as (Hc' & Hf');
    [subst w1; cbn; by rewrite Hcl, Hm | subst w1; cbn; by rewrite Hcf, Hm |].
  set (w2 := StatusBar.set_mode "confirm" w1) in *.
  assert (Hreb : StatusBar._rebuild_content w2 =
                 StatusBar.with_children (StatusBar.children (StatusBar._rebuild_content w2)) w2).
  { unfold StatusBar._rebuild_content. by rewrite Hm'. }
  rewrite Hreb.
  assert (Ht2 : StatusBar._timer w2 = None) by (rewrite Ht'; subst w1; cbn; exact Ht).
  assert (Hr2 : StatusBar.running w2 = []) by (rewrite Hr'; subst w1; cbn; exact Hr).
  unfold StatusBar.consistent. cbn. rewrite Ht2, Hr2, Hm', Hf'.
  repeat split; try done; by apply Hc'.
Qed.

Lemma sb_on_key_cases (key : string) (w : StatusBar.t) :
  StatusBar.on_key key w = (false, w) \/
  StatusBar.mode w = "confirm" /\
  exists r, StatusBar.on_key key w =
              (true, StatusBar.hide (StatusBar.post_message r w)).
Proof.
  unfold StatusBar.on_key.
  destruct (String.eqb_spec (StatusBar.mode w) "confirm") as [E|E]; [|by left].
  cbn [negb].
  destruct (String.eqb _ "y"); [right; split; [done | by eexists]|].
  destruct (String.eqb _ "n"); [right; split; [done | by eexists]|].
  destruct (String.eqb _ "a" && _); [right; split; [done | by eexists]|].
  destruct (String.eqb _ "escape"); [right; split; [done | by eexists]|].
  by left.
Qed.

Lemma sb_post_consistent (r : StatusBar.response) (w : StatusBar.t) :
  StatusBar.consistent w -> StatusBar.consistent (StatusBar.post_message r w).
Proof. intros H. exact H. Qed.

Lemma sb_timer_fires_current (w : StatusBar.t) (tm : nat) :
  StatusBar.consistent w -> StatusBar._timer w = Some tm ->
  StatusBar.timer_fires tm w = StatusBar.hide w.
Proof.
  intros (Ht & _) Et. rewrite Et in Ht. destruct Ht as (Hr & _).
  unfold StatusBar.timer_fires. rewrite Hr.
  rewrite bool_decide_eq_true_2 by apply list_elem_of_singleton, eq_refl.
  unfold StatusBar.hide, StatusBar.cancel_timer, StatusBar.stop_timer.
  cbn. rewrite Et. cbn. rewrite Hr. cbn.
  rewrite decide_False by (intros H; by apply H). reflexivity.
Qed.

Lemma sb_timer_fires_other (w : StatusBar.t) (tm : nat) :
  StatusBar.consistent w -> StatusBar._timer w <> Some tm ->
  StatusBar.timer_fires tm w = w.
Proof.
  intros (Ht & _) Et. unfold StatusBar.timer_fires.
  rewrite bool_decide_eq_false_2; [reflexivity|].
  destruct (StatusBar._timer w) as [t0|].
  - destruct Ht as (-> & _). intros ->%list_elem_of_singleton. by apply Et.
  - rewrite Ht. apply not_elem_of_nil.
Qed.

Lemma sb_timer_fires_consistent (w : StatusBar.t) (tm : nat) :
  StatusBar.consistent w -> StatusBar.consistent (StatusBar.timer_fires tm w).
Proof.
  intros Hw. destruct (decide (StatusBar._timer w = Some tm)) as [E|E].
  - rewrite (sb_timer_fires_current w tm Hw E). by apply sb_hide_consistent.
  - by rewrite (sb_timer_fires_other w tm Hw E).
Qed.

(** X24.  The bar stays consistent under everything that happens to it,
    a new notification or prompt, hiding, a key press, a timer firing:
    the only timer that can still fire is the one the bar holds, it is
    held only while a notification is shown, the [hidden] class is set
    exactly in the hidden mode, and the bar can take the focus exactly in
    the confirm mode. *)
Theorem status_bar_stays_consistent (w : StatusBar.t) :
  StatusBar.consistent w ->
  (forall text severity timeout,
     StatusBar.consistent (StatusBar.show_notification text severity timeout w)) /\
  (forall question show_all,
     StatusBar.consistent (StatusBar.show_confirm question show_all w)) /\
  StatusBar.consistent (StatusBar.hide w) /\
  (forall key, StatusBar.consistent (StatusBar.on_key key w).2) /\
  (forall tm, StatusBar.consistent (StatusBar.timer_fires tm w)).
Proof.
  intros Hw. split; [|split; [|split; [|split]]].
  - intros. exact (proj1 (sb_show_notification_facts text severity timeout w Hw)).
  - intros. exact (proj1 (sb_show_confirm_facts question show_all w Hw)).
  - by apply sb_hide_consistent.
  - intros key. destruct (sb_on_key_cases key w) as [-> | (_ & r & ->)]; [exact Hw|].
    apply sb_hide_consistent, sb_post_consistent, Hw.
  - intros tm. by apply sb_timer_fires_consistent.
Qed.

Lemma status_bar_stays_consistent_witness :
  StatusBar.consistent
    (StatusBar.on_key "Y"
       (StatusBar.show_confirm "Add file to the chat?" true
          (StatusBar.show_notification "Saved" "success" (Some 3%Q) StatusBar.mounted))).2.
Proof.
  assert (H0 : StatusBar.consistent StatusBar.mounted).
  { split; [reflexivity|]. split; [|reflexivity]. split; [done|]. intros _.
    apply (bool_decide_unpack _). vm_compute. exact I. }
  destruct (status_bar_stays_consistent StatusBar.mounted H0) as (H1 & _).
  destruct (status_bar_stays_consistent _ (H1 "Saved" "success" (Some 3%Q))) as (_ & H2 & _).
  destruct (status_bar_stays_consistent _ (H2 "Add file to the chat?" true))
    as (_ & _ & _ & H3 & _).
  exact (H3 "Y").
Defined.

Lemma sb_press_not_confirm (keys : list string) (w : StatusBar.t) :
  StatusBar.mode w <> "confirm" -> StatusBar.press keys w = w.
Proof.
  intros Hm. induction keys as [|k ks IH]; [reflexivity|].
  unfold StatusBar.press in *. cbn [fold_left].
  assert (Hk : StatusBar.on_key k w = (false, w)).
  { unfold StatusBar.on_key.
    by destruct (String.eqb_spec (StatusBar.mode w) "confirm"). }
  rewrite Hk. exact IH.
Qed.

(** X25.  Whatever keys are pressed, and in whatever mode the bar is, at
    most one [ConfirmResponse] is posted: the first key that answers a
    prompt hides the bar, and a hidden bar ignores every key.  When no
    response was posted, the keys changed nothing at all. *)
Theorem confirm_answered_at_most_once (keys : list string) (w : StatusBar.t) :
  exists rs,
    StatusBar.posted (StatusBar.press keys w) = StatusBar.posted w ++ rs /\
    (length rs <= 1)%nat /\
    (rs = [] -> StatusBar.press keys w = w) /\
    (rs <> [] -> StatusBar.mode (StatusBar.press keys w) = "hidden").
Proof.
  revert w. induction keys as [|k ks IH]; intros w.
  - exists []. rewrite app_nil_r. repeat split; auto. done.
  - change (StatusBar.press (k :: ks) w) with
      (StatusBar.press ks (StatusBar.on_key k w).2).
    destruct (sb_on_key_cases k w) as [-> | (_ & r & ->)]; [apply IH|].
    cbn [snd].
    destruct (sb_hide_facts (StatusBar.post_message r w)) as (Hm & Hp & _).
    rewrite sb_press_not_confirm by (rewrite Hm; discriminate).
    exists [r]. rewrite Hp. repeat split; auto; discriminate.
Qed.



(** X27.  A timer of a replaced message never dismisses what replaced
    it: a confirm prompt is never hidden by a timer, and a notification is
    hidden neither by a timer started before it was shown nor, when it was
    shown without a timeout ([None] or [0]), by any timer at all. *)
Theorem stale_timer_never_dismisses (w : StatusBar.t) (tm : nat) :
  StatusBar.consistent w ->
  (forall question show_all,
     StatusBar.timer_fires tm (StatusBar.show_confirm question show_all w)
     = StatusBar.show_confirm question show_all w) /\
  (forall text severity timeout,
     StatusBar.truthy timeout = false \/ (tm < StatusBar.next_timer w)%nat ->
     StatusBar.timer_fires tm (StatusBar.show_notification text severity timeout w)
     = StatusBar.show_notification text severity timeout w).
Proof.
  intros Hw. split.
  - intros question show_all.
    destruct (sb_show_confirm_facts question show_all w Hw) as (_ & _ & Hr).
    unfold StatusBar.timer_fires. rewrite Hr.
    rewrite bool_decide_eq_false_2; [reflexivity | apply not_elem_of_nil].
  - intros text severity timeout Hor.
    destruct (sb_show_notification_facts text severity timeout w Hw) as (_ & _ & Hif).
    unfold StatusBar.timer_fires.
    destruct (StatusBar.truthy timeout).
    + destruct Hor as [|Hlt]; [discriminate|]. destruct Hif as (_ & ->).
      rewrite bool_decide_eq_false_2; [reflexivity|].
      intros ->%list_elem_of_singleton. lia.
    + destruct Hif as (_ & ->).
      rewrite bool_decide_eq_false_2; [reflexivity | apply not_elem_of_nil].
Qed.

Lemma stale_timer_never_dismisses_witness :
  StatusBar.timer_fires 0
    (StatusBar.show_notification "Second" "info" (Some 3%Q)
       (StatusBar.show_notification "First" "info" (Some 3%Q) StatusBar.mounted))
  = StatusBar.show_notification "Second" "info" (Some 3%Q)
      (StatusBar.show_notification "First" "info" (Some 3%Q) StatusBar.mounted).
Proof.
  assert (H0 : StatusBar.consistent StatusBar.mounted).
  { split; [reflexivity|]. split; [|reflexivity]. split; [done|]. intros _.
    apply (bool_decide_unpack _). vm_compute. exact I. }
  pose proof (proj1 (sb_show_notification_facts "First" "info" (Some 3%Q) _ H0)) as H1.
  destruct (stale_timer_never_dismisses _ 0 H1) as (_ & H2).
  apply H2. right. vm_compute. lia.
Defined.

(** X28.  A notification shown with a timeout is dismissed by its own
    timer: when that timer fires the bar is hidden and holds no timer any
    more, nothing can fire after it, and the children mounted for the
    notification are still there, only hidden. *)
Theorem notification_dismissed_by_its_timer (text severity : string)
    (timeout : option Q) (w : StatusBar.t) :
  StatusBar.consistent w ->
  StatusBar.truthy timeout = true ->
  let w1 := StatusBar.show_notification text severity timeout w in
  exists tm,
    StatusBar._timer w1 = Some tm /\
    let w2 := StatusBar.timer_fires tm w1 in
    StatusBar.mode w2 = "hidden" /\ "hidden" ∈ StatusBar.classes w2 /\
    StatusBar._timer w2 = None /\ StatusBar.running w2 = [] /\
    StatusBar.children w2 =
      [StatusBar.Static text ("notification-text " +:+ severity)].
Proof.
  intros Hw Htr w1.
  destruct (sb_show_notification_facts text severity timeout w Hw) as (Hc1 & Hm1 & Hif).
  fold w1 in Hc1, Hm1, Hif. rewrite Htr in Hif. destruct Hif as (Ht1 & Hr1).
  exists (StatusBar.next_timer w). split; [exact Ht1|]. intros w2. subst w2.
  rewrite (sb_timer_fires_current w1 _ Hc1 Ht1).
  destruct (sb_hide_facts w1) as (Hm & _ & Hch & Ht).
  pose proof (sb_hide_consistent w1 Hc1) as (Hrun & Hcl & _).
  rewrite Ht in Hrun.
  split; [exact Hm|]. split; [by apply Hcl|]. split; [exact Ht|]. split; [exact Hrun|].
  rewrite Hch. subst w1. unfold StatusBar.show_notification. rewrite Htr.
  set (w0 := StatusBar.with_severity severity
               (StatusBar.with_text text (StatusBar.cancel_timer w))).
  destruct (sb_set_mode "notification" w0) as (Hm' & _ & _ & _ & _ & _ & Htx & Hsv & _).
  cbn [StatusBar.children StatusBar.set_timer].
  unfold StatusBar._rebuild_content. rewrite Hm', Htx, Hsv. reflexivity.
Qed.

Lemma notification_dismissed_by_its_timer_witness :
  StatusBar.mode
    (StatusBar.timer_fires 0
       (StatusBar.show_notification "Saved" "success" (Some 3%Q) StatusBar.mounted))
  = "hidden".
Proof.
  assert (H0 : StatusBar.consistent StatusBar.mounted).
  { split; [reflexivity|]. split; [|reflexivity]. split; [done|]. intros _.
    apply (bool_decide_unpack _). vm_compute. exact I. }
  destruct (notification_dismissed_by_its_timer "Saved" "success" (Some 3%Q)
              StatusBar.mounted H0 eq_refl) as (tm & Ht & Hm & _).
  injection Ht as <-. exact Hm.
Defined.

Lemma sb_lower_char_idem (c : Ascii.ascii) :
  StatusBar.lower_char (StatusBar.lower_char c) = StatusBar.lower_char c.
Proof. destruct c as [[] [] [] [] [] [] [] []]; reflexivity. Qed.

Lemma sb_lower_idem (s : string) : StatusBar.lower (StatusBar.lower s) = StatusBar.lower s.
Proof.
  induction s as [|c s IH]; [reflexivity|].
  cbn [StatusBar.lower]. by rewrite sb_lower_char_idem, IH.
Qed.

(** X29.  The confirm keys are read without regard to letter case: a key
    and its lower-case form are handled alike. *)
Theorem on_key_ignores_letter_case (key : string) (w : StatusBar.t) :
  StatusBar.on_key (StatusBar.lower key) w = StatusBar.on_key key w.
Proof. unfold StatusBar.on_key. by rewrite sb_lower_idem. Qed.
